(** * GBM stock price predictor: the estimator, the simulator and the band

    A shallow embedding of [stock_predictor.py].  Floating-point numbers are
    read as real numbers: rounding, overflow and underflow are not modelled,
    except where a definition says so ([exp_underflow]).
    A float that is not finite (nan, inf) is the value [None] of [npfloat].
    The numpy primitives the program calls ([np.log], [np.mean], [np.std],
    [np.random.normal], [np.cumsum], [np.arange], [np.median],
    [np.percentile]) are modelled from numpy's behaviour; the functions of
    the program are translated line by line on top of them.  The global
    generator of [np.random] is threaded as explicit state. *)

From Stdlib Require Import Reals List ZArith Lia Lra Bool Permutation Sorted.
Import ListNotations.
Open Scope R_scope.

(** ** Python outcomes: a call returns or raises *)

Module Py.

(** [InvalidInputError] is the error the specification names; no statement
    of the program raises it.  [ValueError] and [IndexError] are the errors
    numpy raises in the calls the program makes. *)
Inductive exn : Type :=
| ValueError
| IndexError
| InvalidInputError.

Inductive outcome (A : Type) : Type :=
| Returned (a : A)
| Raised (e : exn).

Arguments Returned {A} a.
Arguments Raised {A} e.

Definition bind {A B : Type} (c : outcome A) (k : A -> outcome B) : outcome B :=
  match c with
  | Returned a => k a
  | Raised e => Raised e
  end.

(** [for x in l], each step may raise: the first error wins. *)
Fixpoint mapM {A B : Type} (f : A -> outcome B) (l : list A) : outcome (list B) :=
  match l with
  | [] => Returned []
  | x :: l' => bind (f x) (fun y => bind (mapM f l') (fun ys => Returned (y :: ys)))
  end.

(** Indexing a one-dimensional array with a Python integer: a negative
    index counts from the end, an index out of range raises. *)
Definition index {A : Type} (a : list A) (i : Z) : outcome A :=
  let n := Z.of_nat (length a) in
  let j := if (i <? 0)%Z then (n + i)%Z else i in
  if ((j <? 0) || (n <=? j))%Z then Raised IndexError
  else match nth_error a (Z.to_nat j) with
       | Some x => Returned x
       | None => Raised IndexError
       end.

(** [a[lo:hi]] for non-negative bounds. *)
Definition slice {A : Type} (a : list A) (lo hi : nat) : list A :=
  firstn (hi - lo) (skipn lo a).

End Py.

Import Py.

Declare Scope py_scope.
Delimit Scope py_scope with py.
Notation "x <- c ;; k" := (bind c (fun x => k))
  (at level 61, c at next level, right associativity) : py_scope.

(** ** The numpy primitives the program calls *)

Module NP.

(** A float result that may fail to be finite. *)
Definition npfloat : Type := option R.

Definition lift1 (f : R -> R) (x : npfloat) : npfloat := option_map f x.

Definition lift2 (f : R -> R -> R) (x y : npfloat) : npfloat :=
  match x, y with
  | Some a, Some b => Some (f a b)
  | _, _ => None
  end.

(** [a / b] on floats: a zero divisor gives inf or nan.  A quotient too
    large or too small for a float (overflow to inf, underflow to 0.0) is
    not modelled. *)
Definition divide (a b : R) : npfloat :=
  if Req_dec_T b 0 then None else Some (a / b).

(** [np.log]: -inf at zero, nan below.  Arguments are finite reals: no
    inf argument is modelled. *)
Definition log (x : R) : npfloat :=
  if Rlt_dec 0 x then Some (ln x) else None.

(** An array one of whose entries is not finite is [None] as a whole: the
    reductions the program applies to it ([np.mean], [np.std]) are then
    not finite either. *)
Fixpoint sequence (l : list npfloat) : option (list R) :=
  match l with
  | [] => Some []
  | Some x :: l' => option_map (cons x) (sequence l')
  | None :: _ => None
  end.

(** Elementwise [np.log(a / b)] of two arrays of the same length. *)
Definition log_divide (a b : list R) : option (list R) :=
  sequence (map (fun p => match divide (fst p) (snd p) with
                          | Some r => log r
                          | None => None
                          end) (combine a b)).

Definition sum (a : list R) : R := fold_left Rplus a 0.

(** [np.mean]: the sum over the count; nan (with a warning) when empty. *)
Definition mean (a : list R) : npfloat :=
  match a with
  | [] => None
  | _ => Some (sum a / INR (length a))
  end.

(** [np.var] with its default [ddof=0]: the mean of the squared deviations
    from the mean, the count being the divisor. *)
Definition var (a : list R) : npfloat :=
  match mean a with
  | None => None
  | Some m => Some (sum (map (fun x => (x - m) * (x - m)) a) / INR (length a))
  end.

(** [np.std]: the square root of [np.var]. *)
Definition std (a : list R) : npfloat := lift1 sqrt (var a).


(** [np.arange(n)]: the integers 0 .. n-1, none when [n <= 0]. *)
Definition arange (n : Z) : list Z :=
  map Z.of_nat (seq 0 (Z.to_nat n)).

(** The global generator of [np.random], as the standard normal variates
    it is going to deliver, in order.  Seeding fixes this sequence. *)
Definition rng : Type := nat -> R.

(** A computation that reads the global generator and may raise. *)
Definition random (A : Type) : Type := rng -> outcome (A * rng).

Definition ret {A : Type} (a : A) : random A := fun g => Returned (a, g).

Definition rbind {A B : Type} (c : random A) (k : A -> random B) : random B :=
  fun g => match c g with
           | Returned (a, g') => k a g'
           | Raised e => Raised e
           end.

Definition lift {A : Type} (c : outcome A) : random A :=
  fun g => match c with
           | Returned a => Returned (a, g)
           | Raised e => Raised e
           end.

(** [np.random.normal(loc, scale, (rows, cols))]: a negative dimension
    raises; otherwise the array is filled row by row, each entry being
    [loc + scale * z] for the next variate [z], and the generator has
    advanced by [rows * cols] variates. *)
Definition random_normal (loc scale : R) (rows cols : Z) : random (list (list R)) :=
  fun g =>
    if ((rows <? 0) || (cols <? 0))%Z then Raised ValueError
    else
      let r := Z.to_nat rows in
      let c := Z.to_nat cols in
      Returned (map (fun i => map (fun j => loc + scale * g (i * c + j)%nat) (seq 0 c))
                    (seq 0 r),
                fun k => g (r * c + k)%nat).

(** Elementwise sum of two rows of the same length. *)
Definition add_rows (a b : list R) : list R :=
  map (fun p => fst p + snd p) (combine a b).

(** [np.cumsum(a, axis=0)]: the running sum down the rows; the first row
    is kept as it is. *)
Fixpoint cumsum_from (acc : list R) (rows : list (list R)) : list (list R) :=
  match rows with
  | [] => []
  | r :: rows' => let acc' := add_rows acc r in acc' :: cumsum_from acc' rows'
  end.

Definition cumsum (a : list (list R)) : list (list R) :=
  match a with
  | [] => []
  | r :: rows => r :: cumsum_from r rows
  end.

(** The order statistics of a row ([np.partition] at the indices asked
    for), as a sort. *)
Fixpoint insert (x : R) (l : list R) : list R :=
  match l with
  | [] => [x]
  | y :: l' => if Rle_dec x y then x :: l else y :: insert x l'
  end.

Fixpoint sort (l : list R) : list R :=
  match l with
  | [] => []
  | x :: l' => insert x (sort l')
  end.

(** [np.median] of one row: the mean of the middle element, or of the two
    middle elements, of the sorted row; the mean of an empty slice (nan)
    when the row is empty. *)
Definition median (a : list R) : npfloat :=
  let part := sort a in
  let sz := length a in
  let index := (sz / 2)%nat in
  if Nat.odd sz then mean (slice part index (index + 1))
  else mean (slice part (index - 1) (index + 1)).

(** The linear interpolation of [np.percentile]: [a + (b - a) * t], and
    [b - (b - a) * (1 - t)] from [t >= 0.5] on. *)
Definition lerp (a b t : R) : R :=
  let diff_b_a := b - a in
  if Rle_dec (5 / 10) t then b - diff_b_a * (1 - t) else a + diff_b_a * t.

(** The two neighbouring indices of a virtual index in an array of
    [n] values: the last one twice at or above [n - 1], the first one
    twice below 0. *)
Definition get_indexes (virtual_index : R) (n : nat) : Z * Z :=
  if Rle_dec (INR n - 1) virtual_index then ((-1)%Z, (-1)%Z)
  else if Rlt_dec virtual_index 0 then (0%Z, 0%Z)
  else (Int_part virtual_index, (Int_part virtual_index + 1)%Z).

(** [np.percentile(a, q)] of one row, default (linear) method: [q] outside
    [0, 100] raises; the virtual index is [(n - 1) * q / 100]; its two
    neighbours in the sorted row are interpolated.  On an empty row the
    indexing raises. *)
Definition percentile (a : list R) (q : R) : outcome R :=
  if Rlt_dec q 0 then Raised ValueError
  else if Rlt_dec 100 q then Raised ValueError
  else
    let n := length a in
    let arr := sort a in
    let virtual_index := (INR n - 1) * (q / 100) in
    let '(previous_index, next_index) := get_indexes virtual_index n in
    (previous <- index arr previous_index ;;
     next <- index arr next_index ;;
     let gamma := virtual_index - IZR previous_index in
     Returned (lerp previous next gamma))%py.

End NP.

(** ** The program *)

Import NP.

Notation "x <~ c ;; k" := (rbind c (fun x => k))
  (at level 61, c at next level, right associativity) : py_scope.

(** [estimate_gbm_parameters(prices)], lines 11-16.  [prices[1:]] is the
    tail and [prices[:-1]] the series without its last element. *)
Definition estimate_gbm_parameters (prices : list R) : outcome (npfloat * npfloat) :=
  let log_returns := log_divide (tl prices) (removelast prices) in
  let sigma := lift1 (fun s => s * sqrt 252)
                     (match log_returns with Some r => std r | None => None end) in
  let mu := lift2 Rplus
              (lift1 (fun m => m * 252)
                     (match log_returns with Some r => mean r | None => None end))
              (lift1 (fun s => 5 / 10 * s ^ 2) sigma) in
  Returned (mu, sigma).

(** [simulate_gbm_daily(S0, mu, sigma, n_days, n_sim)], lines 18-25, for a
    given reading [np_exp] of [np.exp].  [t[:, None]] broadcasts the day of
    a row over the row. *)
Definition simulate_gbm_daily_with (np_exp : R -> R) (S0 mu sigma : R) (n_days n_sim : Z)
  : random (list (list R) * list Z) :=
  (let dt := 1 / 252 in
   dW <~ random_normal 0 (sqrt dt) n_days n_sim ;;
   let W := cumsum dW in
   let t := arange n_days in
   let S := map (fun p => map (fun w =>
                     S0 * np_exp ((mu - 5 / 10 * sigma ^ 2) * IZR (fst p) / 252 + sigma * w))
                   (snd p))
                (combine t W) in
   ret (S, t))%py.

(** The simulator with [np.exp] read as the real exponential. *)
Definition simulate_gbm_daily : R -> R -> R -> Z -> Z -> random (list (list R) * list Z) :=
  simulate_gbm_daily_with exp.


(** The forecast band: one value per forecast day in each series. *)
Record ForecastBand : Type := mkBand {
  median_series : list npfloat;
  lower : list R;
  upper : list R
}.

(** Lines 52-54 of [predict_stock_daily]: the median and the 2.5th and
    97.5th percentiles of every day's row of the grid ([axis=1]). *)
Definition reduce_paths (S : list (list R)) : outcome ForecastBand :=
  (let median := map NP.median S in
   lower <- mapM (fun row => percentile row (25 / 10)) S ;;
   upper <- mapM (fun row => percentile row (975 / 10)) S ;;
   Returned (mkBand median lower upper))%py.

(** Lines 49-54 of [predict_stock_daily]: the simulation, then the
    reduction of its grid. *)
Definition forecast_band (S0 mu sigma : R) (n_days n_sim : Z) : random ForecastBand :=
  (St <~ simulate_gbm_daily S0 mu sigma n_days n_sim ;;
   let S := fst St in
   lift (reduce_paths S))%py.

(** What a run lets the caller see: the band, or the error. *)
Definition observe {A : Type} (o : outcome (A * rng)) : outcome A :=
  match o with
  | Returned (a, _) => Returned a
  | Raised e => Raised e
  end.

(** ** The specification's formulas, in its own words *)

Module Spec.

(** The log return [r[i] = ln(prices[i] / prices[i-1])], [i = 1..n-1]. *)
Definition log_return (prices : list R) (i : nat) : R :=
  ln (nth i prices 0 / nth (i - 1) prices 0).

Definition log_returns (prices : list R) : list R :=
  map (log_return prices) (seq 1 (length prices - 1)).

Definition total (r : list R) : R := fold_right Rplus 0 r.

Definition mean (r : list R) : R := total r / INR (length r).

(** Population standard deviation: the divisor is the number of returns. *)
Definition stdDev (r : list R) : R :=
  sqrt (total (map (fun x => (x - mean r) ^ 2) r) / INR (length r)).

Definition tradingDaysPerYear : R := 252.

Definition sigma (prices : list R) : R :=
  stdDev (log_returns prices) * sqrt tradingDaysPerYear.

Definition mu (prices : list R) : R :=
  mean (log_returns prices) * tradingDaysPerYear + 5 / 10 * sigma prices ^ 2.

(** [W[t]]: the sum of the first [t] increments [dW 0 .. dW (t-1)] of a
    path. *)
Definition cumulative (dW : nat -> R) (t : nat) : R :=
  total (map dW (seq 0 t)).

(** The price the specification gives for forecast day [t], counted from
    1, on a path whose Brownian value that day is [w]. *)
Definition price (S0 mu sigma : R) (t : nat) (w : R) : R :=
  S0 * exp ((mu - 5 / 10 * sigma ^ 2) * INR t / tradingDaysPerYear + sigma * w).

End Spec.

(** ** The inputs on which the estimator is finite *)

(** The pairs [(prices[i], prices[i-1])] the estimator divides. *)
Definition consecutive (prices : list R) : list (R * R) :=
  combine (tl prices) (removelast prices).

(** Every consecutive ratio is defined and strictly positive. *)
Definition ratios_positive (prices : list R) : Prop :=
  Forall (fun p => snd p <> 0 /\ 0 < fst p / snd p) (consecutive prices).

(** Some consecutive ratio has a zero divisor or is not positive. *)
Definition ratio_undefined (prices : list R) : Prop :=
  Exists (fun p => snd p = 0 \/ fst p / snd p <= 0) (consecutive prices).

(** ** What the simulator computes, entry by entry *)

(** The increment of row [i], column [j], in a grid of [c] columns. *)
Definition increment (g : rng) (c i j : nat) : R :=
  0 + sqrt (1 / 252) * g (i * c + j)%nat.

(** The running sum of the increments of column [j] down to row [i],
    row 0 included: [i + 1] increments. *)
Fixpoint brownian (g : rng) (c i j : nat) : R :=
  match i with
  | O => increment g c 0 j
  | S i' => brownian g c i' j + increment g c i j
  end.

(** The argument of [np.exp] at row [i] (counted from 0), column [j]. *)
Definition exponent (mu sigma : R) (g : rng) (c i j : nat) : R :=
  (mu - 5 / 10 * sigma ^ 2) * IZR (Z.of_nat i) / 252 + sigma * brownian g c i j.

(** The entry of row [i] (counted from 0), column [j], of the grid. *)
Definition entry (S0 mu sigma : R) (g : rng) (c i j : nat) : R :=
  S0 * exp ((mu - 5 / 10 * sigma ^ 2) * IZR (Z.of_nat i) / 252 + sigma * brownian g c i j).

Definition grid (S0 mu sigma : R) (g : rng) (r c : nat) : list (list R) :=
  map (fun i => map (fun j => entry S0 mu sigma g c i j) (seq 0 c)) (seq 0 r).

(** The grid for a given reading of [np.exp]. *)
Definition grid_with (np_exp : R -> R) (S0 mu sigma : R) (g : rng) (r c : nat)
  : list (list R) :=
  map (fun i => map (fun j => S0 * np_exp (exponent mu sigma g c i j)) (seq 0 c))
      (seq 0 r).

(** The generator after [k] variates were drawn. *)
Definition advance (g : rng) (k : nat) : rng := fun n => g (k + n)%nat.

(** The value of the interpolation at the virtual index [v] in a sorted
    row [s]. *)
Definition interpolate (s : list R) (v : R) : R :=
  let k := Z.to_nat (Int_part v) in
  let a := nth k s 0 in
  let b := nth (Nat.min (k + 1) (length s - 1)) s 0 in
  a + (b - a) * (v - IZR (Int_part v)).

(** The percentile [q] of a non-empty row, as an interpolation. *)
Definition reduce_row (q : R) (row : list R) : R :=
  interpolate (sort row) ((INR (length row) - 1) * (q / 100)).

(** The band of a grid all of whose rows are non-empty. *)
Definition band_of_grid (G : list (list R)) : ForecastBand :=
  mkBand (map (fun row => Some (reduce_row 50 row)) G)
         (map (reduce_row (25 / 10)) G)
         (map (reduce_row (975 / 10)) G).

(** The three values of a band at index [i], when all are there and the
    median is finite. *)
Definition band_at (b : ForecastBand) (i : nat) : option (R * R * R) :=
  match nth_error (lower b) i, nth_error (median_series b) i, nth_error (upper b) i with
  | Some l, Some (Some m), Some u => Some (l, m, u)
  | _, _, _ => None
  end.

(** The band scaled by [k]. *)
Definition scale_band (k : R) (b : ForecastBand) : ForecastBand :=
  mkBand (map (lift1 (Rmult k)) (median_series b))
         (map (Rmult k) (lower b))
         (map (Rmult k) (upper b)).

(** ** The orchestration *)

(** The values the report of [predict_stock_daily] prints (lines 89-98),
    before they are formatted. *)
Record Report : Type := mkReport {
  current_price : R;               (* S0 *)
  data_used : nat;                 (* len(prices) *)
  drift : R;                       (* mu *)
  drift_percent : R;               (* mu*100 *)
  volatility : R;                  (* sigma *)
  volatility_percent : R;          (* sigma*100 *)
  horizon : Z;                     (* n_days *)
  horizon_months : R;              (* n_days/21 *)
  median_price : npfloat;          (* median[-1] *)
  expected_change : npfloat;       (* ((median[-1]/S0)-1)*100 *)
  interval_low : R;                (* lower[-1] *)
  interval_high : R;               (* upper[-1] *)
  range_low : npfloat;             (* ((lower[-1]/S0)-1)*100 *)
  range_high : npfloat;            (* ((upper[-1]/S0)-1)*100 *)
  expected_annual_return : R       (* (mu-0.5*sigma**2)*100 *)
}.

(** [((x/S0)-1)*100] on floats. *)
Definition percent_change (x : npfloat) (S0 : R) : npfloat :=
  lift1 (fun r => (r - 1) * 100)
        (match x with Some v => divide v S0 | None => None end).

(** How a call of [predict_stock_daily] ends when it does not raise:
    the early return on a short history, or the report.  [NotFinite]
    marks a run whose estimated parameters are nan and is where the model
    stops: the simulation the program goes on to with them (which draws
    variates and may raise) is outside the real-number model and is not
    described. *)
Inductive prediction : Type :=
| InsufficientData (available : nat)
| NotFinite (S0 : R) (used : nat)
| Forecast (r : Report).

(** [data.iloc[-252:]] when there are more than 252 rows. *)
Definition recent_window (data : list R) : list R :=
  if (252 <? length data)%nat then skipn (length data - 252) data else data.

(** [predict_stock_daily(ticker, n_days, n_sim)], lines 27-99, on the
    closing prices [data] the market-data call returned.  The dates, the
    plot and the formatting of the report are left out; they are taken
    not to raise. *)
Definition predict_stock_daily (data : list R) (n_days n_sim : Z) : random prediction :=
  (if (length data <? 60)%nat then ret (InsufficientData (length data))
   else
     let data := recent_window data in
     let prices := data in
     S0 <~ lift (index prices (-1)) ;;
     params <~ lift (estimate_gbm_parameters prices) ;;
     match params with
     | (Some mu, Some sigma) =>
         band <~ forecast_band S0 mu sigma n_days n_sim ;;
         let median := median_series band in
         median_last <~ lift (index median (-1)) ;;
         lower_last <~ lift (index (lower band) (-1)) ;;
         upper_last <~ lift (index (upper band) (-1)) ;;
         ret (Forecast (mkReport S0 (length prices) mu (mu * 100) sigma (sigma * 100)
                                 n_days (IZR n_days / 21)
                                 median_last (percent_change median_last S0)
                                 lower_last upper_last
                                 (percent_change (Some lower_last) S0)
                                 (percent_change (Some upper_last) S0)
                                 ((mu - 5 / 10 * sigma ^ 2) * 100)))
     | _ => ret (NotFinite S0 (length prices))
     end)%py.


(** ** Lists, sorting and order statistics *)

Section ListFacts.

Lemma combine_map_same {A B C : Type} (f : A -> B) (h : A -> C) (l : list A) :
  combine (map f l) (map h l) = map (fun x => (f x, h x)) l.
Proof.
  induction l as [|x l IH]; simpl; [reflexivity | now rewrite IH].
Qed.

Lemma add_rows_map {A : Type} (f h : A -> R) (l : list A) :
  add_rows (map f l) (map h l) = map (fun x => f x + h x) l.
Proof.
  unfold add_rows. rewrite combine_map_same, map_map. reflexivity.
Qed.

Lemma insert_perm (x : R) (l : list R) : Permutation (insert x l) (x :: l).
Proof.
  induction l as [|y l IH]; simpl.
  - apply Permutation_refl.
  - destruct (Rle_dec x y).
    + apply Permutation_refl.
    + eapply perm_trans; [apply perm_skip, IH | apply perm_swap].
Qed.

Lemma sort_perm (l : list R) : Permutation (sort l) l.
Proof.
  induction l as [|x l IH]; simpl.
  - apply perm_nil.
  - eapply perm_trans; [apply insert_perm | apply perm_skip, IH].
Qed.

Lemma sort_length (l : list R) : length (sort l) = length l.
Proof. apply Permutation_length, sort_perm. Qed.

Lemma insert_sorted (x : R) (l : list R) :
  StronglySorted Rle l -> StronglySorted Rle (insert x l).
Proof.
  induction 1 as [|y l Hs IH Hall]; simpl.
  - constructor; constructor.
  - destruct (Rle_dec x y) as [Hxy|Hxy].
    + constructor.
      * constructor; assumption.
      * constructor; [assumption|].
        eapply Forall_impl; [|exact Hall]. intros z Hz. lra.
    + constructor; [assumption|].
      apply (Permutation_Forall (Permutation_sym (insert_perm x l))).
      constructor; [lra | assumption].
Qed.

Lemma sort_sorted (l : list R) : StronglySorted Rle (sort l).
Proof.
  induction l as [|x l IH]; simpl; [constructor | now apply insert_sorted].
Qed.

Lemma sorted_nth_le (s : list R) :
  StronglySorted Rle s ->
  forall i j, (i <= j < length s)%nat -> nth i s 0 <= nth j s 0.
Proof.
  induction 1 as [|x s Hs IH Hall]; intros i j [Hij Hj]; simpl in Hj.
  - lia.
  - destruct i as [|i], j as [|j]; simpl.
    + lra.
    + rewrite Forall_forall in Hall. apply Hall, nth_In. lia.
    + lia.
    + apply IH. lia.
Qed.

Lemma sort_nth_le (l : list R) (i j : nat) :
  (i <= j < length l)%nat -> nth i (sort l) 0 <= nth j (sort l) 0.
Proof.
  intros H. apply sorted_nth_le; [apply sort_sorted | now rewrite sort_length].
Qed.

Lemma sort_Forall (P : R -> Prop) (l : list R) : Forall P l -> Forall P (sort l).
Proof.
  apply Permutation_Forall, Permutation_sym, sort_perm.
Qed.

Lemma sort_nth_Forall (P : R -> Prop) (l : list R) (i : nat) :
  Forall P l -> (i < length l)%nat -> P (nth i (sort l) 0).
Proof.
  intros Hall Hi. apply sort_Forall in Hall. rewrite Forall_forall in Hall.
  apply Hall, nth_In. now rewrite sort_length.
Qed.

Lemma insert_scale (k x : R) (l : list R) :
  0 < k -> insert (k * x) (map (Rmult k) l) = map (Rmult k) (insert x l).
Proof.
  intros Hk. induction l as [|y l IH]; simpl; [reflexivity|].
  destruct (Rle_dec (k * x) (k * y)) as [H|H], (Rle_dec x y) as [H'|H']; simpl.
  - reflexivity.
  - exfalso. apply H'. apply Rmult_le_reg_l with k; assumption.
  - exfalso. apply H. apply Rmult_le_compat_l; lra.
  - now rewrite IH.
Qed.

Lemma sort_scale (k : R) (l : list R) :
  0 < k -> sort (map (Rmult k) l) = map (Rmult k) (sort l).
Proof.
  intros Hk. induction l as [|x l IH]; simpl; [reflexivity|].
  rewrite IH. now apply insert_scale.
Qed.

Lemma slice_one {A : Type} (l : list A) (m : nat) (d : A) :
  (m < length l)%nat -> slice l m (m + 1) = [nth m l d].
Proof.
  unfold slice. replace (m + 1 - m)%nat with 1%nat by lia.
  revert m. induction l as [|x l IH]; intros m Hm; simpl in Hm; [lia|].
  destruct m as [|m]; simpl.
  - reflexivity.
  - apply IH. lia.
Qed.

Lemma slice_two {A : Type} (l : list A) (m : nat) (d : A) :
  (m + 1 < length l)%nat -> slice l m (m + 1 + 1) = [nth m l d; nth (m + 1) l d].
Proof.
  unfold slice. replace (m + 1 + 1 - m)%nat with 2%nat by lia.
  revert m. induction l as [|x l IH]; intros m Hm; simpl in Hm; [lia|].
  destruct m as [|m].
  - destruct l; simpl in *; [lia | reflexivity].
  - simpl skipn. rewrite IH by lia. reflexivity.
Qed.

End ListFacts.

(** ** Indexing and the percentile *)

Section PercentileFacts.

Lemma index_nonneg {A : Type} (a : list A) (i : Z) (d : A) :
  (0 <= i < Z.of_nat (length a))%Z -> index a i = Returned (nth (Z.to_nat i) a d).
Proof.
  intros [H0 Hn]. unfold index. cbv zeta.
  destruct (Z.ltb_spec i 0); [lia|]. cbv iota.
  destruct (Z.ltb_spec i 0); [lia|].
  destruct (Z.leb_spec (Z.of_nat (length a)) i); [lia|]. simpl.
  rewrite (nth_error_nth' a d) by lia. reflexivity.
Qed.

Lemma index_last {A : Type} (a : list A) (d : A) :
  a <> [] -> index a (-1) = Returned (nth (length a - 1) a d).
Proof.
  intros Ha. unfold index.
  assert (0 < length a)%nat by (destruct a; [congruence | simpl; lia]).
  cbv zeta. change (-1 <? 0)%Z with true. cbv iota.
  destruct (Z.ltb_spec (Z.of_nat (length a) + -1) 0); [lia|].
  destruct (Z.leb_spec (Z.of_nat (length a)) (Z.of_nat (length a) + -1)); [lia|].
  simpl orb. cbv iota.
  replace (Z.to_nat (Z.of_nat (length a) + -1)) with (length a - 1)%nat by lia.
  rewrite (nth_error_nth' a d) by lia. reflexivity.
Qed.

Lemma lerp_linear (a b t : R) : lerp a b t = a + (b - a) * t.
Proof.
  unfold lerp. destruct (Rle_dec (5 / 10) t); lra.
Qed.

Lemma Int_part_nonneg (r : R) : 0 <= r -> (0 <= Int_part r)%Z.
Proof.
  intros Hr. destruct (base_Int_part r) as [_ H].
  assert (-1 < IZR (Int_part r)) as Hlt by lra.
  change (-1) with (IZR (-1)) in Hlt.
  apply lt_IZR in Hlt. lia.
Qed.

Lemma Int_part_lt (r : R) (n : Z) : r < IZR n -> (Int_part r < n)%Z.
Proof.
  intros Hr. destruct (base_Int_part r) as [H _].
  apply lt_IZR. lra.
Qed.

Lemma Int_part_le_compat (r1 r2 : R) : r1 <= r2 -> (Int_part r1 <= Int_part r2)%Z.
Proof.
  intros Hr. destruct (base_Int_part r1) as [H1 _]. destruct (base_Int_part r2) as [_ H2].
  assert (IZR (Int_part r1) < IZR (Int_part r2 + 1)) as Hlt by (rewrite plus_IZR; lra).
  apply lt_IZR in Hlt. lia.
Qed.

Lemma INR_pred (n : nat) : (0 < n)%nat -> INR (n - 1) = INR n - 1.
Proof.
  intros Hn. rewrite minus_INR by lia. reflexivity.
Qed.

Lemma virtual_index_range (n : nat) (q : R) :
  (0 < n)%nat -> 0 <= q <= 100 ->
  0 <= (INR n - 1) * (q / 100) <= INR n - 1.
Proof.
  intros Hn [Hq0 Hq1].
  assert (0 <= INR n - 1) by (rewrite <- INR_pred by lia; apply pos_INR).
  split; [apply Rmult_le_pos; lra|].
  rewrite <- (Rmult_1_r (INR n - 1)) at 2.
  apply Rmult_le_compat_l; lra.
Qed.

(** The percentile of a non-empty row is the interpolation of its sorted
    values at the virtual index. *)
Lemma percentile_interpolate (a : list R) (q : R) :
  a <> [] -> 0 <= q <= 100 ->
  percentile a q = Returned (interpolate (sort a) ((INR (length a) - 1) * (q / 100))).
Proof.
  intros Ha Hq.
  assert (0 < length a)%nat as Hn by (destruct a; [congruence | simpl; lia]).
  assert (sort a <> []) as Hs
      by (intros E; apply (f_equal (@length R)) in E; rewrite sort_length in E; simpl in E; lia).
  pose proof (virtual_index_range (length a) q Hn Hq) as [Hv0 Hv1].
  unfold percentile.
  destruct (Rlt_dec q 0) as [Hneg|_]; [lra|].
  destruct (Rlt_dec 100 q) as [Hbig|_]; [lra|].
  set (v := (INR (length a) - 1) * (q / 100)) in *.
  unfold get_indexes.
  destruct (Rle_dec (INR (length a) - 1) v) as [Habove|Hbelow].
  - assert (v = INR (length a - 1)) as Hv by (rewrite INR_pred by lia; lra).
    simpl. rewrite (index_last (sort a) 0 Hs). simpl.
    rewrite lerp_linear. unfold interpolate.
    rewrite Hv, Int_part_INR, Nat2Z.id, sort_length.
    replace (Nat.min (length a - 1 + 1) (length a - 1)) with (length a - 1)%nat by lia.
    f_equal. lra.
  - destruct (Rlt_dec v 0) as [Hlt0|_]; [lra|].
    assert (0 <= Int_part v)%Z as Hk0 by (apply Int_part_nonneg; lra).
    assert (Int_part v < Z.of_nat (length a - 1))%Z as Hk1.
    { apply Int_part_lt. rewrite <- INR_IZR_INZ, INR_pred by lia. lra. }
    simpl.
    rewrite (index_nonneg (sort a) (Int_part v) 0) by (rewrite sort_length; lia).
    simpl.
    rewrite (index_nonneg (sort a) (Int_part v + 1) 0) by (rewrite sort_length; lia).
    simpl. rewrite lerp_linear. unfold interpolate. rewrite sort_length.
    replace (Nat.min (Z.to_nat (Int_part v) + 1) (length a - 1))
      with (Z.to_nat (Int_part v + 1)) by lia.
    reflexivity.
Qed.

(** The interpolation grows with the virtual index. *)
Lemma interpolate_monotone (s : list R) (v1 v2 : R) :
  StronglySorted Rle s ->
  0 <= v1 -> v1 <= v2 -> v2 <= INR (length s) - 1 ->
  interpolate s v1 <= interpolate s v2.
Proof.
  intros Hs H0 H12 Hn.
  assert (0 < length s)%nat as Hlen.
  { destruct s; simpl; [simpl in Hn; lra | lia]. }
  unfold interpolate.
  destruct (base_Int_part v1) as [Hf1 Hf1'].
  destruct (base_Int_part v2) as [Hf2 Hf2'].
  pose proof (Int_part_nonneg v1 H0) as Hk1.
  pose proof (Int_part_le_compat v1 v2 H12) as Hk12.
  assert (Int_part v2 < Z.of_nat (length s))%Z as Hk2.
  { apply Int_part_lt. rewrite <- INR_IZR_INZ. lra. }
  set (k1 := Int_part v1) in *. set (k2 := Int_part v2) in *.
  assert (forall k, (0 <= k < Z.of_nat (length s))%Z ->
            nth (Z.to_nat k) s 0 <= nth (Nat.min (Z.to_nat k + 1) (length s - 1)) s 0) as Hstep.
  { intros k Hk. apply sorted_nth_le; [assumption | lia]. }
  pose proof (Hstep k1 ltac:(lia)) as Hab1.
  pose proof (Hstep k2 ltac:(lia)) as Hab2.
  destruct (Z.eq_dec k1 k2) as [E|NE].
  - rewrite <- E in *. 
    set (a := nth (Z.to_nat k1) s 0) in *.
    set (b := nth (Nat.min (Z.to_nat k1 + 1) (length s - 1)) s 0) in *.
    apply Rplus_le_compat_l, Rmult_le_compat_l; lra.
  - assert (nth (Nat.min (Z.to_nat k1 + 1) (length s - 1)) s 0 <= nth (Z.to_nat k2) s 0) as Hmid.
    { apply sorted_nth_le; [assumption | lia]. }
    set (a1 := nth (Z.to_nat k1) s 0) in *.
    set (b1 := nth (Nat.min (Z.to_nat k1 + 1) (length s - 1)) s 0) in *.
    set (a2 := nth (Z.to_nat k2) s 0) in *.
    set (b2 := nth (Nat.min (Z.to_nat k2 + 1) (length s - 1)) s 0) in *.
    assert (a1 + (b1 - a1) * (v1 - IZR k1) <= b1) by nra.
    assert (a2 <= a2 + (b2 - a2) * (v2 - IZR k2)) by nra.
    lra.
Qed.

End PercentileFacts.

(** ** The median is the 50th percentile *)

Section MedianFacts.

Lemma sum_one (x : R) : sum [x] = x.
Proof. unfold sum. simpl. lra. Qed.

Lemma sum_two (x y : R) : sum [x; y] = x + y.
Proof. unfold sum. simpl. lra. Qed.

Lemma median_interpolate (a : list R) :
  a <> [] ->
  median a = Some (interpolate (sort a) ((INR (length a) - 1) * (50 / 100))).
Proof.
  intros Ha.
  assert (0 < length a)%nat as Hn by (destruct a; [congruence | simpl; lia]).
  unfold median. cbv zeta.
  destruct (Nat.odd (length a)) eqn:Hodd.
  - apply Nat.odd_spec in Hodd. destruct Hodd as [m Hm].
    replace (length a / 2)%nat with m
      by (rewrite Hm; symmetry; rewrite Nat.add_comm, Nat.mul_comm; apply Nat.div_add; lia).
    rewrite (slice_one (sort a) m 0) by (rewrite sort_length; lia).
    unfold mean. rewrite sum_one. simpl length. f_equal.
    assert ((INR (length a) - 1) * (50 / 100) = INR m) as Hv.
    { rewrite Hm, plus_INR, mult_INR. simpl INR. lra. }
    unfold interpolate. rewrite Hv, Int_part_INR, Nat2Z.id, <- INR_IZR_INZ.
    simpl INR. lra.
  - assert (Nat.even (length a) = true) as Heven
        by (rewrite <- Nat.negb_odd, Hodd; reflexivity).
    apply Nat.even_spec in Heven. destruct Heven as [m Hm].
    assert (0 < m)%nat as Hm0 by lia.
    replace (length a / 2)%nat with m
      by (rewrite Hm; symmetry; rewrite Nat.mul_comm; apply Nat.div_mul; lia).
    replace (m + 1)%nat with (m - 1 + 1 + 1)%nat by lia.
    rewrite (slice_two (sort a) (m - 1) 0) by (rewrite sort_length; lia).
    unfold mean. rewrite sum_two. simpl length. f_equal.
    assert ((INR (length a) - 1) * (50 / 100) = INR (m - 1) + 5 / 10) as Hv.
    { rewrite Hm, mult_INR, INR_pred by lia. simpl INR. lra. }
    assert (Int_part ((INR (length a) - 1) * (50 / 100)) = Z.of_nat (m - 1)) as Hk.
    { symmetry. apply Int_part_spec. rewrite Hv, <- INR_IZR_INZ. lra. }
    unfold interpolate. rewrite Hk, Nat2Z.id, sort_length, <- INR_IZR_INZ, Hv.
    replace (Nat.min (m - 1 + 1) (length a - 1)) with (m - 1 + 1)%nat by lia.
    simpl INR. lra.
Qed.

Lemma median_percentile (a : list R) (m : R) :
  median a = Some m -> percentile a 50 = Returned m.
Proof.
  intros Hm. destruct a as [|x a].
  - discriminate Hm.
  - rewrite percentile_interpolate by (try discriminate; lra).
    rewrite median_interpolate in Hm by discriminate.
    now inversion Hm.
Qed.

(** The three reductions of one non-empty row are ordered. *)
Lemma row_ordered (a : list R) (l m u : R) :
  percentile a (25 / 10) = Returned l ->
  median a = Some m ->
  percentile a (975 / 10) = Returned u ->
  l <= m <= u.
Proof.
  intros Hl Hm Hu.
  assert (a <> []) as Ha by (intros ->; discriminate Hm).
  assert (0 < length a)%nat as Hn by (destruct a; [congruence | simpl; lia]).
  rewrite percentile_interpolate in Hl, Hu by (try assumption; lra).
  rewrite median_interpolate in Hm by assumption.
  inversion Hl; inversion Hm; inversion Hu; subst l m u.
  assert (0 <= INR (length a) - 1) by (rewrite <- INR_pred by lia; apply pos_INR).
  split; apply interpolate_monotone;
    try apply sort_sorted; rewrite ?sort_length; nra.
Qed.

End MedianFacts.

(** ** The simulator, entry by entry *)

Section SimulatorFacts.

Lemma cumsum_from_closed (g : rng) (c m i : nat) :
  cumsum_from (map (fun j => brownian g c i j) (seq 0 c))
              (map (fun i' => map (fun j => increment g c i' j) (seq 0 c)) (seq (S i) m))
  = map (fun i' => map (fun j => brownian g c i' j) (seq 0 c)) (seq (S i) m).
Proof.
  revert i. induction m as [|m IH]; intros i; simpl; [reflexivity|].
  rewrite add_rows_map. change (fun x => brownian g c i x + increment g c (S i) x)
    with (fun j => brownian g c (S i) j).
  f_equal. apply IH.
Qed.

Lemma cumsum_closed (g : rng) (r c : nat) :
  cumsum (map (fun i => map (fun j => increment g c i j) (seq 0 c)) (seq 0 r))
  = map (fun i => map (fun j => brownian g c i j) (seq 0 c)) (seq 0 r).
Proof.
  destruct r as [|r]; simpl; [reflexivity|].
  f_equal. apply (cumsum_from_closed g c r 0).
Qed.

(** For dimensions that are not negative the simulator returns the grid
    and the days [0 .. n_days-1], and leaves the generator advanced by the
    number of entries, whatever the reading of [np.exp]. *)
Lemma simulate_with_closed (np_exp : R -> R) (S0 mu sigma : R) (n_days n_sim : Z) (g : rng) :
  (0 <= n_days)%Z -> (0 <= n_sim)%Z ->
  simulate_gbm_daily_with np_exp S0 mu sigma n_days n_sim g
  = Returned ((grid_with np_exp S0 mu sigma g (Z.to_nat n_days) (Z.to_nat n_sim),
               arange n_days),
              advance g (Z.to_nat n_days * Z.to_nat n_sim)).
Proof.
  intros Hd Hs. unfold simulate_gbm_daily_with, rbind, random_normal.
  destruct (Z.ltb_spec n_days 0); [lia|]. destruct (Z.ltb_spec n_sim 0); [lia|].
  simpl orb. cbv iota beta.
  change (map (fun i => map (fun j => 0 + sqrt (1 / 252) * g (i * Z.to_nat n_sim + j)%nat)
                            (seq 0 (Z.to_nat n_sim))) (seq 0 (Z.to_nat n_days)))
    with (map (fun i => map (fun j => increment g (Z.to_nat n_sim) i j)
                            (seq 0 (Z.to_nat n_sim))) (seq 0 (Z.to_nat n_days))).
  rewrite cumsum_closed. unfold arange, ret.
  rewrite combine_map_same, map_map. simpl fst. simpl snd.
  unfold grid_with, advance.
  f_equal. f_equal. f_equal.
  apply map_ext. intros i. rewrite map_map. reflexivity.
Qed.

Lemma simulate_closed (S0 mu sigma : R) (n_days n_sim : Z) (g : rng) :
  (0 <= n_days)%Z -> (0 <= n_sim)%Z ->
  simulate_gbm_daily S0 mu sigma n_days n_sim g
  = Returned ((grid S0 mu sigma g (Z.to_nat n_days) (Z.to_nat n_sim), arange n_days),
              advance g (Z.to_nat n_days * Z.to_nat n_sim)).
Proof.
  intros Hd Hs. exact (simulate_with_closed exp S0 mu sigma n_days n_sim g Hd Hs).
Qed.

(** A negative dimension makes the draw, hence the simulator, raise. *)
Lemma simulate_with_negative (np_exp : R -> R) (S0 mu sigma : R) (n_days n_sim : Z) (g : rng) :
  (n_days < 0)%Z \/ (n_sim < 0)%Z ->
  simulate_gbm_daily_with np_exp S0 mu sigma n_days n_sim g = Raised ValueError.
Proof.
  intros H. unfold simulate_gbm_daily_with, rbind, random_normal.
  destruct (Z.ltb_spec n_days 0); [reflexivity|].
  destruct (Z.ltb_spec n_sim 0); [reflexivity | lia].
Qed.

Lemma simulate_negative (S0 mu sigma : R) (n_days n_sim : Z) (g : rng) :
  (n_days < 0)%Z \/ (n_sim < 0)%Z ->
  simulate_gbm_daily S0 mu sigma n_days n_sim g = Raised ValueError.
Proof. apply simulate_with_negative. Qed.

Lemma grid_length (S0 mu sigma : R) (g : rng) (r c : nat) :
  length (grid S0 mu sigma g r c) = r.
Proof. unfold grid. now rewrite length_map, length_seq. Qed.

Lemma grid_nth (S0 mu sigma : R) (g : rng) (r c i : nat) :
  (i < r)%nat ->
  nth i (grid S0 mu sigma g r c) [] = map (fun j => entry S0 mu sigma g c i j) (seq 0 c).
Proof.
  intros Hi. unfold grid.
  rewrite (nth_indep _ [] (map (fun j => entry S0 mu sigma g c 0 j) (seq 0 c)))
    by (rewrite length_map, length_seq; lia).
  rewrite (map_nth (fun i => map (fun j => entry S0 mu sigma g c i j) (seq 0 c)) (seq 0 r) 0%nat i).
  rewrite seq_nth by lia. reflexivity.
Qed.

Lemma grid_rows (S0 mu sigma : R) (g : rng) (r c : nat) (row : list R) :
  In row (grid S0 mu sigma g r c) ->
  exists i, (i < r)%nat /\ row = map (fun j => entry S0 mu sigma g c i j) (seq 0 c).
Proof.
  unfold grid. rewrite in_map_iff. intros [i [<- Hi]].
  apply in_seq in Hi. exists i. split; [lia | reflexivity].
Qed.

End SimulatorFacts.

(** ** The reduction of a grid *)

Section BandFacts.

Lemma mapM_percentile (q : R) (G : list (list R)) :
  0 <= q <= 100 -> Forall (fun row => row <> []) G ->
  mapM (fun row => percentile row q) G = Returned (map (reduce_row q) G).
Proof.
  intros Hq. induction 1 as [|row G Hrow _ IH]; simpl; [reflexivity|].
  rewrite percentile_interpolate by assumption. simpl. rewrite IH. reflexivity.
Qed.

Lemma map_median (G : list (list R)) :
  Forall (fun row => row <> []) G ->
  map median G = map (fun row => Some (reduce_row 50 row)) G.
Proof.
  induction 1 as [|row G Hrow _ IH]; simpl; [reflexivity|].
  rewrite median_interpolate by assumption. now rewrite IH.
Qed.

Lemma reduce_paths_closed (G : list (list R)) :
  Forall (fun row => row <> []) G ->
  reduce_paths G = Returned (band_of_grid G).
Proof.
  intros HG. unfold reduce_paths.
  rewrite !mapM_percentile by (try assumption; lra). simpl.
  rewrite map_median by assumption. reflexivity.
Qed.

Lemma grid_rows_nonempty (S0 mu sigma : R) (g : rng) (r c : nat) :
  (0 < c)%nat -> Forall (fun row => row <> []) (grid S0 mu sigma g r c).
Proof.
  intros Hc. apply Forall_forall. intros row Hrow.
  apply grid_rows in Hrow. destruct Hrow as [i [_ ->]].
  destruct c; [lia|]. simpl. discriminate.
Qed.

Lemma forecast_unfold (S0 mu sigma : R) (n_days n_sim : Z) (g : rng) :
  observe (forecast_band S0 mu sigma n_days n_sim g)
  = bind (observe (simulate_gbm_daily S0 mu sigma n_days n_sim g))
         (fun St => reduce_paths (fst St)).
Proof.
  unfold forecast_band, rbind, lift.
  destruct (simulate_gbm_daily S0 mu sigma n_days n_sim g) as [[St g']|e]; simpl;
    [|reflexivity].
  destruct (reduce_paths (fst St)); reflexivity.
Qed.

(** With at least one path and no negative horizon the run returns the
    band of the grid. *)
Lemma forecast_closed (S0 mu sigma : R) (n_days n_sim : Z) (g : rng) :
  (0 <= n_days)%Z -> (1 <= n_sim)%Z ->
  forecast_band S0 mu sigma n_days n_sim g
  = Returned (band_of_grid (grid S0 mu sigma g (Z.to_nat n_days) (Z.to_nat n_sim)),
              advance g (Z.to_nat n_days * Z.to_nat n_sim)).
Proof.
  intros Hd Hs. unfold forecast_band, rbind, lift.
  rewrite simulate_closed by lia. simpl fst.
  rewrite reduce_paths_closed by (apply grid_rows_nonempty; lia).
  reflexivity.
Qed.

Lemma band_at_grid (G : list (list R)) (i : nat) (row : list R) :
  nth_error G i = Some row ->
  band_at (band_of_grid G) i
  = Some (reduce_row (25 / 10) row, reduce_row 50 row, reduce_row (975 / 10) row).
Proof.
  intros Hrow. unfold band_at, band_of_grid. simpl.
  rewrite !nth_error_map, Hrow. reflexivity.
Qed.

Lemma interpolate_between (P : R -> Prop) (s : list R) (v : R) :
  (forall a b t, P a -> P b -> 0 <= t < 1 -> P (a + (b - a) * t)) ->
  Forall P s -> 0 <= v -> v <= INR (length s) - 1 ->
  P (interpolate s v).
Proof.
  intros Hconv Hall Hv0 Hv1.
  assert (0 < length s)%nat as Hlen.
  { destruct s; simpl; [simpl in Hv1; lra | lia]. }
  unfold interpolate.
  destruct (base_Int_part v) as [Hf Hf'].
  pose proof (Int_part_nonneg v Hv0) as Hk.
  assert (Int_part v < Z.of_nat (length s))%Z as Hk'.
  { apply Int_part_lt. rewrite <- INR_IZR_INZ. lra. }
  rewrite Forall_forall in Hall.
  apply Hconv; [apply Hall, nth_In; lia | apply Hall, nth_In; lia | lra].
Qed.

Lemma reduce_row_between (P : R -> Prop) (q : R) (row : list R) :
  (forall a b t, P a -> P b -> 0 <= t < 1 -> P (a + (b - a) * t)) ->
  0 <= q <= 100 -> row <> [] -> Forall P row -> P (reduce_row q row).
Proof.
  intros Hconv Hq Hrow Hall.
  assert (0 < length row)%nat as Hn by (destruct row; [congruence | simpl; lia]).
  pose proof (virtual_index_range (length row) q Hn Hq) as [Hv0 Hv1].
  unfold reduce_row. apply interpolate_between; try assumption.
  - now apply sort_Forall.
  - now rewrite sort_length.
Qed.

Lemma reduce_row_const (q v : R) (row : list R) :
  0 <= q <= 100 -> row <> [] -> Forall (fun x => x = v) row -> reduce_row q row = v.
Proof.
  apply (reduce_row_between (fun x => x = v)). intros a b t -> -> _. lra.
Qed.

Lemma nth_scale (k : R) (s : list R) (i : nat) :
  nth i (map (Rmult k) s) 0 = k * nth i s 0.
Proof.
  revert i. induction s as [|x s IH]; intros [|i]; simpl; try lra. apply IH.
Qed.

Lemma reduce_row_scale (k q : R) (row : list R) :
  0 < k -> reduce_row q (map (Rmult k) row) = k * reduce_row q row.
Proof.
  intros Hk. unfold reduce_row, interpolate.
  rewrite sort_scale by assumption. rewrite !length_map, !nth_scale. lra.
Qed.

Lemma entry_scale (k S0 mu sigma : R) (g : rng) (c i j : nat) :
  entry (k * S0) mu sigma g c i j = k * entry S0 mu sigma g c i j.
Proof. unfold entry. apply Rmult_assoc. Qed.

Lemma grid_scale (k S0 mu sigma : R) (g : rng) (r c : nat) :
  grid (k * S0) mu sigma g r c = map (map (Rmult k)) (grid S0 mu sigma g r c).
Proof.
  unfold grid. rewrite map_map. apply map_ext. intros i.
  rewrite map_map. apply map_ext. intros j. apply entry_scale.
Qed.

Lemma band_of_grid_scale (k : R) (G : list (list R)) :
  0 < k -> band_of_grid (map (map (Rmult k)) G) = scale_band k (band_of_grid G).
Proof.
  intros Hk. unfold band_of_grid, scale_band. simpl. rewrite !map_map.
  f_equal; apply map_ext; intros row; simpl; now rewrite reduce_row_scale.
Qed.

End BandFacts.

(** ** The generator: only the variates of the grid matter *)

Section GeneratorFacts.

Lemma brownian_ext (g1 g2 : rng) (r c i j : nat) :
  (forall n, (n < r * c)%nat -> g1 n = g2 n) ->
  (i < r)%nat -> (j < c)%nat ->
  brownian g1 c i j = brownian g2 c i j.
Proof.
  intros Hg Hi Hj. induction i as [|i IH]; simpl; unfold increment.
  - rewrite Hg by nia. reflexivity.
  - rewrite IH by lia. rewrite Hg by nia. reflexivity.
Qed.

Lemma grid_ext (S0 mu sigma : R) (g1 g2 : rng) (r c : nat) :
  (forall n, (n < r * c)%nat -> g1 n = g2 n) ->
  grid S0 mu sigma g1 r c = grid S0 mu sigma g2 r c.
Proof.
  intros Hg. unfold grid. apply map_ext_in. intros i Hi. apply in_seq in Hi.
  apply map_ext_in. intros j Hj. apply in_seq in Hj.
  unfold entry. rewrite (brownian_ext g1 g2 r c) by (try assumption; lia).
  reflexivity.
Qed.

End GeneratorFacts.

(** ** Errors of the reduction *)

Section ErrorFacts.

Lemma index_raises {A : Type} (a : list A) (i : Z) (e : exn) :
  index a i = Raised e -> e = IndexError.
Proof.
  unfold index. cbv zeta.
  destruct (_ || _)%bool; [intros H; now inversion H|].
  destruct (nth_error _ _); intros H; now inversion H.
Qed.

Lemma percentile_raises (a : list R) (q : R) (e : exn) :
  percentile a q = Raised e -> e <> InvalidInputError.
Proof.
  unfold percentile.
  destruct (Rlt_dec q 0); [intros H; inversion H; discriminate|].
  destruct (Rlt_dec 100 q); [intros H; inversion H; discriminate|].
  destruct (get_indexes _ _) as [prev next].
  destruct (index (sort a) prev) eqn:Hp; simpl.
  - destruct (index (sort a) next) eqn:Hn; simpl; intros H; inversion H.
    subst. apply index_raises in Hn. subst. discriminate.
  - intros H; inversion H. subst. apply index_raises in Hp. subst. discriminate.
Qed.

Lemma mapM_percentile_raises (q : R) (G : list (list R)) (e : exn) :
  mapM (fun row => percentile row q) G = Raised e -> e <> InvalidInputError.
Proof.
  induction G as [|row G IH]; simpl; [discriminate|].
  destruct (percentile row q) eqn:Hrow; simpl.
  - destruct (mapM _ G); simpl; [discriminate|].
    intros H; inversion H; subst. now apply IH.
  - intros H; inversion H; subst. now apply percentile_raises in Hrow.
Qed.

Lemma reduce_paths_raises (G : list (list R)) (e : exn) :
  reduce_paths G = Raised e -> e <> InvalidInputError.
Proof.
  unfold reduce_paths.
  destruct (mapM _ G) eqn:Hl; simpl.
  - destruct (mapM (fun row => percentile row (975 / 10)) G) eqn:Hu; simpl; [discriminate|].
    intros H; inversion H; subst. now apply mapM_percentile_raises in Hu.
  - intros H; inversion H; subst. now apply mapM_percentile_raises in Hl.
Qed.

End ErrorFacts.

(** ** The estimator *)

Section EstimatorFacts.

Lemma combine_removelast (l : list R) (x : R) :
  combine l (removelast (x :: l))
  = map (fun i => (nth i (x :: l) 0, nth (i - 1) (x :: l) 0)) (seq 1 (length l)).
Proof.
  revert x. induction l as [|y l IH]; intros x; [reflexivity|].
  change (removelast (x :: y :: l)) with (x :: removelast (y :: l)).
  change (combine (y :: l) (x :: removelast (y :: l)))
    with ((y, x) :: combine l (removelast (y :: l))).
  rewrite IH. change (seq 1 (length (y :: l))) with (1%nat :: seq 2 (length l)).
  rewrite <- (seq_shift (length l) 1). cbn [map]. f_equal.
  rewrite map_map. apply map_ext_in. intros i Hi.
  apply in_seq in Hi. destruct i as [|i]; [lia|].
  simpl. rewrite Nat.sub_0_r. reflexivity.
Qed.

Lemma consecutive_indexed (x : R) (l : list R) :
  consecutive (x :: l)
  = map (fun i => (nth i (x :: l) 0, nth (i - 1) (x :: l) 0)) (seq 1 (length l)).
Proof. apply combine_removelast. Qed.

Lemma log_returns_consecutive (prices : list R) :
  Spec.log_returns prices = map (fun p => ln (fst p / snd p)) (consecutive prices).
Proof.
  destruct prices as [|x l]; [reflexivity|].
  rewrite consecutive_indexed, map_map. unfold Spec.log_returns.
  replace (length (x :: l) - 1)%nat with (length l) by (simpl; lia).
  reflexivity.
Qed.

Lemma consecutive_length (prices : list R) :
  length (consecutive prices) = (length prices - 1)%nat.
Proof.
  destruct prices as [|x l]; [reflexivity|].
  rewrite consecutive_indexed, length_map, length_seq. simpl. lia.
Qed.

Lemma log_ratio_defined (l : list (R * R)) :
  Forall (fun p => snd p <> 0 /\ 0 < fst p / snd p) l ->
  sequence (map (fun p => match divide (fst p) (snd p) with
                          | Some r => log r
                          | None => None
                          end) l)
  = Some (map (fun p => ln (fst p / snd p)) l).
Proof.
  induction 1 as [|p l [Hp0 Hp] _ IH]; [reflexivity|].
  cbn [map sequence]. unfold divide at 1.
  destruct (Req_dec_T (snd p) 0) as [E|_]; [contradiction|].
  unfold log at 1. destruct (Rlt_dec 0 (fst p / snd p)) as [_|N]; [|contradiction].
  rewrite IH. reflexivity.
Qed.

Lemma log_ratio_undefined (l : list (R * R)) :
  Exists (fun p => snd p = 0 \/ fst p / snd p <= 0) l ->
  sequence (map (fun p => match divide (fst p) (snd p) with
                          | Some r => log r
                          | None => None
                          end) l)
  = None.
Proof.
  induction 1 as [p l Hp|p l _ IH]; cbn [map sequence].
  - unfold divide at 1. destruct (Req_dec_T (snd p) 0) as [E|NE]; [reflexivity|].
    unfold log at 1. destruct (Rlt_dec 0 (fst p / snd p)) as [Hlt|_]; [|reflexivity].
    destruct Hp; [contradiction | lra].
  - rewrite IH. destruct (divide (fst p) (snd p)) as [r|]; [|reflexivity].
    destruct (log r); reflexivity.
Qed.

Lemma log_divide_defined (prices : list R) :
  ratios_positive prices ->
  log_divide (tl prices) (removelast prices) = Some (Spec.log_returns prices).
Proof.
  intros H. rewrite log_returns_consecutive. now apply log_ratio_defined.
Qed.

Lemma log_divide_undefined (prices : list R) :
  ratio_undefined prices -> log_divide (tl prices) (removelast prices) = None.
Proof. apply log_ratio_undefined. Qed.

Lemma log_divide_short (prices : list R) :
  (length prices < 2)%nat -> log_divide (tl prices) (removelast prices) = Some [].
Proof.
  intros H. destruct prices as [|x [|y l]]; simpl in H; try lia; reflexivity.
Qed.

Lemma fold_left_plus (l : list R) (acc : R) :
  fold_left Rplus l acc = acc + fold_right Rplus 0 l.
Proof.
  revert acc. induction l as [|x l IH]; intros acc; simpl; [lra|].
  rewrite IH. lra.
Qed.

Lemma sum_total (l : list R) : sum l = Spec.total l.
Proof. unfold sum, Spec.total. rewrite fold_left_plus. lra. Qed.

Lemma mean_spec (r : list R) : r <> [] -> mean r = Some (Spec.mean r).
Proof.
  intros Hr. destruct r as [|x r]; [congruence|].
  unfold mean, Spec.mean. now rewrite sum_total.
Qed.

Lemma std_spec (r : list R) : r <> [] -> std r = Some (Spec.stdDev r).
Proof.
  intros Hr. unfold std, var. rewrite mean_spec by assumption. simpl.
  unfold Spec.stdDev. rewrite sum_total.
  rewrite (map_ext (fun x => (x - Spec.mean r) * (x - Spec.mean r))
                   (fun x => (x - Spec.mean r) ^ 2)) by (intros x; simpl; lra).
  reflexivity.
Qed.

(** On at least two prices whose consecutive ratios are positive the
    estimator returns the specification's values. *)
Lemma estimator_defined (prices : list R) :
  (2 <= length prices)%nat -> ratios_positive prices ->
  estimate_gbm_parameters prices = Returned (Some (Spec.mu prices), Some (Spec.sigma prices)).
Proof.
  intros Hlen Hpos. unfold estimate_gbm_parameters.
  rewrite log_divide_defined by assumption.
  assert (Spec.log_returns prices <> []) as Hne.
  { intros E. apply (f_equal (@length R)) in E.
    rewrite log_returns_consecutive, length_map, consecutive_length in E. simpl in E. lia. }
  rewrite std_spec, mean_spec by assumption. reflexivity.
Qed.

(** Otherwise both values are nan. *)
Lemma estimator_undefined (prices : list R) :
  (length prices < 2)%nat \/ ratio_undefined prices ->
  estimate_gbm_parameters prices = Returned (None, None).
Proof.
  intros [Hlen|Hbad]; unfold estimate_gbm_parameters.
  - rewrite log_divide_short by assumption. reflexivity.
  - rewrite log_divide_undefined by assumption. reflexivity.
Qed.

Lemma ratios_positive_of_sign (prices : list R) :
  Forall (fun p => 0 < p) prices \/ Forall (fun p => p < 0) prices ->
  ratios_positive prices.
Proof.
  intros Hsign. unfold ratios_positive. apply Forall_forall. intros [a b] Hin.
  assert (In a prices /\ In b prices) as [Ha Hb].
  { unfold consecutive in Hin. split.
    - apply in_combine_l in Hin. destruct prices; [contradiction | now right].
    - apply in_combine_r in Hin. revert Hin. clear.
      induction prices as [|x [|y l] IH]; simpl; try contradiction.
      intros [E|H]; [now left | right; now apply IH]. }
  simpl. destruct Hsign as [H|H]; rewrite Forall_forall in H;
    apply H in Ha; apply H in Hb.
  - split; [lra | now apply Rdiv_lt_0_compat].
  - split; [lra|]. replace (a / b) with ((- a) / (- b)) by (field; lra).
    apply Rdiv_lt_0_compat; lra.
Qed.

End EstimatorFacts.

(** ** Entries of the grid and the zero-volatility band *)

Section EntryFacts.

Lemma total_app (l1 l2 : list R) :
  Spec.total (l1 ++ l2) = Spec.total l1 + Spec.total l2.
Proof.
  unfold Spec.total. induction l1 as [|x l1 IH]; simpl; [lra|]. rewrite IH. lra.
Qed.

(** The Brownian value of row [i] is the sum of the first [i + 1]
    increments of the column. *)
Lemma brownian_cumulative (g : rng) (c i j : nat) :
  brownian g c i j = Spec.cumulative (fun k => increment g c k j) (S i).
Proof.
  unfold Spec.cumulative. induction i as [|i IH].
  - simpl. unfold Spec.total. simpl. lra.
  - rewrite seq_S, map_app, total_app, <- IH. simpl.
    unfold Spec.total. simpl. lra.
Qed.

Lemma grid_entry (S0 mu sigma : R) (g : rng) (r c i j : nat) :
  (i < r)%nat -> (j < c)%nat ->
  nth j (nth i (grid S0 mu sigma g r c) []) 0 = entry S0 mu sigma g c i j.
Proof.
  intros Hi Hj. rewrite grid_nth by assumption.
  rewrite (nth_indep _ 0 (entry S0 mu sigma g c i 0)) by (rewrite length_map, length_seq; lia).
  rewrite (map_nth (fun j => entry S0 mu sigma g c i j) (seq 0 c) 0%nat j).
  rewrite seq_nth by lia. reflexivity.
Qed.

(** The drift of row [i] is that of day [i], not of day [i + 1]. *)
Lemma entry_price (S0 mu sigma : R) (g : rng) (c i j : nat) :
  entry S0 mu sigma g c i j = Spec.price S0 mu sigma i (brownian g c i j).
Proof.
  unfold entry, Spec.price, Spec.tradingDaysPerYear. now rewrite <- INR_IZR_INZ.
Qed.

Lemma price_day_injective (S0 mu sigma w : R) (t : nat) :
  0 < S0 -> mu - 5 / 10 * sigma ^ 2 <> 0 ->
  Spec.price S0 mu sigma t w <> Spec.price S0 mu sigma (t + 1) w.
Proof.
  intros HS Hm E. unfold Spec.price, Spec.tradingDaysPerYear in E.
  apply Rmult_eq_reg_l in E; [|lra]. apply exp_inv in E.
  rewrite plus_INR in E. simpl INR in E.
  apply Hm. nra.
Qed.

Lemma entry_zero_volatility (S0 mu : R) (g : rng) (c i j : nat) :
  entry S0 mu 0 g c i j = S0 * exp (mu * INR i / 252).
Proof.
  unfold entry. rewrite <- INR_IZR_INZ. f_equal. f_equal. simpl. lra.
Qed.

Lemma row_const (v : R) (f : nat -> R) (c : nat) :
  (forall j, f j = v) -> Forall (fun x => x = v) (map f (seq 0 c)).
Proof.
  intros Hf. apply Forall_forall. intros x Hx.
  apply in_map_iff in Hx. destruct Hx as [j [<- _]]. apply Hf.
Qed.

Lemma row_nonempty (f : nat -> R) (c : nat) : (0 < c)%nat -> map f (seq 0 c) <> [].
Proof. intros Hc. destruct c; [lia | discriminate]. Qed.

(** With no volatility every row is constant, and the three series are
    the curve [S0 * exp (mu * i / 252)], [i] counted from 0. *)
Lemma zero_volatility_band (S0 mu : R) (n_days n_sim : Z) (g : rng) :
  (0 <= n_days)%Z -> (1 <= n_sim)%Z ->
  forecast_band S0 mu 0 n_days n_sim g
  = Returned (mkBand (map (fun i => Some (S0 * exp (mu * INR i / 252))) (seq 0 (Z.to_nat n_days)))
                     (map (fun i => S0 * exp (mu * INR i / 252)) (seq 0 (Z.to_nat n_days)))
                     (map (fun i => S0 * exp (mu * INR i / 252)) (seq 0 (Z.to_nat n_days))),
              advance g (Z.to_nat n_days * Z.to_nat n_sim)).
Proof.
  intros Hd Hs. rewrite forecast_closed by assumption.
  unfold band_of_grid, grid. rewrite !map_map.
  assert (forall q i, 0 <= q <= 100 ->
            reduce_row q (map (fun j => entry S0 mu 0 g (Z.to_nat n_sim) i j)
                              (seq 0 (Z.to_nat n_sim)))
            = S0 * exp (mu * INR i / 252)) as Hrow.
  { intros q i Hq. apply reduce_row_const; [assumption | apply row_nonempty; lia |].
    apply row_const. intros j. apply entry_zero_volatility. }
  do 2 f_equal. f_equal; apply map_ext; intros i; rewrite Hrow by lra; reflexivity.
Qed.

Lemma exp_pos_gt_1 (x : R) : 0 < x -> 1 < exp x.
Proof. intros Hx. pose proof (exp_ineq1 x ltac:(lra)). lra. Qed.

End EntryFacts.

(** * The properties of the specification *)

(** ** The estimator *)

(** C2: on a series of at least two strictly positive prices the
    estimator returns sigma = (population standard deviation of the log
    returns [ln(prices[i] / prices[i-1])]) * sqrt(252), the divisor being
    the number of log returns (one less than the number of prices), and
    mu = (mean of the log returns) * 252 + 0.5 * sigma^2. *)
Theorem estimator_matches_formulas (prices : list R) :
  (2 <= length prices)%nat -> Forall (fun p => 0 < p) prices ->
  estimate_gbm_parameters prices
  = Returned (Some (Spec.mu prices), Some (Spec.sigma prices))
  /\ length (Spec.log_returns prices) = (length prices - 1)%nat.
Proof.
  intros Hlen Hpos. split.
  - apply estimator_defined; [assumption|].
    apply ratios_positive_of_sign. now left.
  - unfold Spec.log_returns. now rewrite length_map, length_seq.
Qed.

Lemma estimator_matches_formulas_witness :
  (2 <= length [100; 110; 99])%nat /\ Forall (fun p => 0 < p) [100; 110; 99] /\
  estimate_gbm_parameters [100; 110; 99]
  = Returned (Some (Spec.mu [100; 110; 99]), Some (Spec.sigma [100; 110; 99])).
Proof.
  assert (2 <= length [100; 110; 99])%nat as Hlen by (simpl; lia).
  assert (Forall (fun p => 0 < p) [100; 110; 99]) as Hpos by (repeat constructor; lra).
  split; [exact Hlen|]. split; [exact Hpos|].
  exact (proj1 (estimator_matches_formulas [100; 110; 99] Hlen Hpos)).
Defined.

(** C4, as the specification states it, fails: a series of three negative
    prices is not rejected, the estimator returns (0, 0) for it. *)
Lemma estimator_accepts_negative_prices :
  Exists (fun p => p <= 0) [-1; -1; -1] /\
  estimate_gbm_parameters [-1; -1; -1] = Returned (Some 0, Some 0) /\
  estimate_gbm_parameters [-1; -1; -1] <> Raised InvalidInputError.
Proof.
  split; [constructor; lra|].
  assert (estimate_gbm_parameters [-1; -1; -1] = Returned (Some 0, Some 0)) as E.
  { rewrite estimator_defined.
    - assert (Spec.log_returns [-1; -1; -1] = [0; 0]) as Hr.
      { unfold Spec.log_returns, Spec.log_return. simpl.
        replace (-1 / -1) with 1 by (field; lra). now rewrite ln_1. }
      assert (Spec.sigma [-1; -1; -1] = 0) as Hs.
      { unfold Spec.sigma, Spec.stdDev, Spec.mean. rewrite Hr.
        unfold Spec.total. simpl.
        replace ((_ + _) / (1 + 1)) with 0 by (field; lra).
        rewrite sqrt_0. lra. }
      assert (Spec.mu [-1; -1; -1] = 0) as Hm.
      { unfold Spec.mu. rewrite Hs. unfold Spec.mean. rewrite Hr.
        unfold Spec.total, Spec.tradingDaysPerYear. simpl. lra. }
      now rewrite Hs, Hm.
    - simpl. lia.
    - apply ratios_positive_of_sign. right. repeat constructor; lra. }
  split; [exact E | rewrite E; discriminate].
Qed.

(** C4, amended: the estimator validates nothing and never raises; it
    returns a pair for every series.  Both values are nan when the series
    has fewer than two prices or some consecutive ratio
    [prices[i] / prices[i-1]] has a zero divisor or is not positive; a
    series of at least two negative prices is accepted and gives the values
    of the formulas. *)
Theorem estimator_never_raises (prices : list R) :
  (exists mu sigma, estimate_gbm_parameters prices = Returned (mu, sigma)) /\
  ((length prices < 2)%nat \/ ratio_undefined prices ->
   estimate_gbm_parameters prices = Returned (None, None)) /\
  ((2 <= length prices)%nat -> Forall (fun p => p < 0) prices ->
   estimate_gbm_parameters prices
   = Returned (Some (Spec.mu prices), Some (Spec.sigma prices))).
Proof.
  split; [|split].
  - unfold estimate_gbm_parameters. eexists. eexists. reflexivity.
  - apply estimator_undefined.
  - intros Hlen Hneg. apply estimator_defined; [assumption|].
    apply ratios_positive_of_sign. now right.
Qed.

Lemma estimator_never_raises_witness :
  estimate_gbm_parameters [] = Returned (None, None) /\
  estimate_gbm_parameters [1; 0] = Returned (None, None) /\
  estimate_gbm_parameters [-2; -3]
  = Returned (Some (Spec.mu [-2; -3]), Some (Spec.sigma [-2; -3])).
Proof.
  split; [|split].
  - apply (proj1 (proj2 (estimator_never_raises []))). left. simpl. lia.
  - apply (proj1 (proj2 (estimator_never_raises [1; 0]))). right.
    unfold ratio_undefined. simpl. constructor. right. simpl. lra.
  - apply (proj2 (proj2 (estimator_never_raises [-2; -3]))).
    + simpl. lia.
    + repeat constructor; lra.
Defined.

(** ** The simulator *)

(** C1: the code differs from the claim.  On every path the entry of row
    [i] (forecast day [i + 1]) carries the Brownian value of [i + 1]
    increments but the drift of day [i]: it is the specification's price
    for [t = i], and differs from that for [t = i + 1] whenever
    [mu - 0.5 * sigma^2] is not zero. *)
Theorem simulate_drift_one_day_late
    (S0 mu sigma : R) (n_days n_sim : Z) (g : rng) (i j : nat) :
  0 < S0 -> mu - 5 / 10 * sigma ^ 2 <> 0 ->
  (Z.of_nat i < n_days)%Z -> (Z.of_nat j < n_sim)%Z ->
  exists S t g',
    simulate_gbm_daily S0 mu sigma n_days n_sim g = Returned ((S, t), g') /\
    let W := Spec.cumulative (fun k => increment g (Z.to_nat n_sim) k j) (i + 1) in
    nth j (nth i S []) 0 = Spec.price S0 mu sigma i W /\
    nth j (nth i S []) 0 <> Spec.price S0 mu sigma (i + 1) W.
Proof.
  intros HS Hm Hi Hj. do 3 eexists. split; [apply simulate_closed; lia|].
  cbv zeta. rewrite grid_entry by lia. rewrite entry_price.
  rewrite Nat.add_1_r, <- brownian_cumulative, <- Nat.add_1_r.
  split; [reflexivity | now apply price_day_injective].
Qed.

Lemma simulate_drift_one_day_late_witness :
  exists S t g',
    simulate_gbm_daily 100 (8 / 100) 0 1 1 (fun _ => 0) = Returned ((S, t), g') /\
    let W := Spec.cumulative (fun k => increment (fun _ => 0) (Z.to_nat 1) k 0) (0 + 1) in
    nth 0 (nth 0 S []) 0 = Spec.price 100 (8 / 100) 0 0 W /\
    nth 0 (nth 0 S []) 0 <> Spec.price 100 (8 / 100) 0 (0 + 1) W.
Proof.
  apply (simulate_drift_one_day_late 100 (8 / 100) 0 1 1 (fun _ => 0) 0 0);
    simpl; try lia; lra.
Defined.

(** C3: the code differs from the claim.  In the scenario S0 = 100,
    mu = 0.08, sigma = 0, two days, the three series are equal, but their
    values are 100 and 100 * exp(0.08 * 1/252): the first value is not
    100 * exp(0.08 * 1/252), and the second is the one the claim expects
    first. *)
Theorem zero_volatility_scenario (n_sim : Z) (g : rng) :
  (1 <= n_sim)%Z ->
  forecast_band 100 (8 / 100) 0 2 n_sim g
  = Returned (mkBand [Some 100; Some (100 * exp (8 / 100 * 1 / 252))]
                     [100; 100 * exp (8 / 100 * 1 / 252)]
                     [100; 100 * exp (8 / 100 * 1 / 252)],
              advance g (2 * Z.to_nat n_sim))
  /\ 100 <> 100 * exp (8 / 100 * 1 / 252)
  /\ 100 * exp (8 / 100 * 1 / 252) <> 100 * exp (8 / 100 * 2 / 252).
Proof.
  intros Hs. split; [|split].
  - rewrite zero_volatility_band by lia.
    change (Z.to_nat 2) with 2%nat. simpl seq. simpl map.
    replace (8 / 100 * 0 / 252) with 0 by lra. rewrite exp_0.
    replace (100 * 1) with 100 by lra. reflexivity.
  - pose proof (exp_pos_gt_1 (8 / 100 * 1 / 252) ltac:(lra)). lra.
  - intros E. apply Rmult_eq_reg_l in E; [|lra]. apply exp_inv in E. lra.
Qed.

Lemma zero_volatility_scenario_witness :
  forecast_band 100 (8 / 100) 0 2 1000 (fun _ => 0)
  = Returned (mkBand [Some 100; Some (100 * exp (8 / 100 * 1 / 252))]
                     [100; 100 * exp (8 / 100 * 1 / 252)]
                     [100; 100 * exp (8 / 100 * 1 / 252)],
              advance (fun _ => 0) (2 * Z.to_nat 1000)).
Proof.
  apply (zero_volatility_scenario 1000 (fun _ => 0)). lia.
Defined.

(** C5, as the specification states it, fails: a negative initial price
    is not rejected, the run returns a band. *)
Lemma simulator_accepts_negative_price :
  -1 <= 0 /\
  observe (forecast_band (-1) 0 0 1 1 (fun _ => 0))
  = Returned (mkBand [Some (-1)] [-1] [-1]) /\
  observe (forecast_band (-1) 0 0 1 1 (fun _ => 0)) <> Raised InvalidInputError.
Proof.
  split; [lra|].
  assert (observe (forecast_band (-1) 0 0 1 1 (fun _ => 0))
          = Returned (mkBand [Some (-1)] [-1] [-1])) as E.
  { rewrite zero_volatility_band by lia.
    change (Z.to_nat 1) with 1%nat. simpl.
    replace (-1 * exp (0 * 0 / 252)) with (-1); [reflexivity|].
    replace (0 * 0 / 252) with 0 by lra. rewrite exp_0. lra. }
  split; [exact E | rewrite E; discriminate].
Qed.

(** C5, amended: the simulator validates nothing and never raises
    InvalidInputError.  A negative number of days or of paths makes the run
    fail with the ValueError of the random draw, before any price is
    computed.  No value of S0 or sigma is rejected: with a number of days
    that is not negative and at least one path the run returns the band of
    the grid, computed by the same formulas. *)
Theorem simulator_never_validates (S0 mu sigma : R) (n_days n_sim : Z) (g : rng) :
  observe (forecast_band S0 mu sigma n_days n_sim g) <> Raised InvalidInputError /\
  ((n_days < 0)%Z \/ (n_sim < 0)%Z ->
   simulate_gbm_daily S0 mu sigma n_days n_sim g = Raised ValueError /\
   forecast_band S0 mu sigma n_days n_sim g = Raised ValueError) /\
  ((0 <= n_days)%Z -> (1 <= n_sim)%Z ->
   forecast_band S0 mu sigma n_days n_sim g
   = Returned (band_of_grid (grid S0 mu sigma g (Z.to_nat n_days) (Z.to_nat n_sim)),
               advance g (Z.to_nat n_days * Z.to_nat n_sim))).
Proof.
  split; [|split].
  - rewrite forecast_unfold.
    destruct (Z_lt_dec n_days 0) as [Hd|Hd]; [|destruct (Z_lt_dec n_sim 0) as [Hs|Hs]].
    + rewrite simulate_negative by (now left). simpl. discriminate.
    + rewrite simulate_negative by (now right). simpl. discriminate.
    + rewrite simulate_closed by lia. simpl.
      destruct (reduce_paths _) eqn:E; [discriminate|].
      apply reduce_paths_raises in E. congruence.
  - intros H. split; [now apply simulate_negative|].
    unfold forecast_band, rbind. now rewrite simulate_negative.
  - apply forecast_closed.
Qed.

Lemma simulator_never_validates_witness :
  forecast_band 100 0 0 (-1) 5 (fun _ => 0) = Raised ValueError /\
  forecast_band 0 0 (-1) 2 3 (fun _ => 0)
  = Returned (band_of_grid (grid 0 0 (-1) (fun _ => 0) (Z.to_nat 2) (Z.to_nat 3)),
              advance (fun _ => 0) (Z.to_nat 2 * Z.to_nat 3)).
Proof.
  split.
  - apply (proj1 (proj2 (simulator_never_validates 100 0 0 (-1) 5 (fun _ => 0)))).
    left. lia.
  - apply (proj2 (proj2 (simulator_never_validates 0 0 (-1) 2 3 (fun _ => 0)))); lia.
Defined.

(** ** The band *)

(** C6: for every valid input and every sequence of draws the run returns
    a band in which, on every day, the lower bound is the 2.5th, the median
    the 50th and the upper bound the 97.5th percentile of that day's row of
    the grid, and lower <= median <= upper. *)
Theorem band_bounds_ordered (S0 mu sigma : R) (n_days n_sim : Z) (g : rng) :
  0 < S0 -> 0 <= sigma -> (1 <= n_days)%Z -> (1 <= n_sim)%Z ->
  exists S t g' b,
    simulate_gbm_daily S0 mu sigma n_days n_sim g = Returned ((S, t), g') /\
    forecast_band S0 mu sigma n_days n_sim g = Returned (b, g') /\
    length S = Z.to_nat n_days /\
    forall i, (i < Z.to_nat n_days)%nat ->
      exists row l m u,
        nth_error S i = Some row /\
        percentile row (25 / 10) = Returned l /\
        percentile row 50 = Returned m /\
        percentile row (975 / 10) = Returned u /\
        band_at b i = Some (l, m, u) /\
        l <= m <= u.
Proof.
  intros _ _ Hd Hs. do 4 eexists.
  split; [apply simulate_closed; lia|].
  split; [apply forecast_closed; lia|].
  split; [apply grid_length|].
  intros i Hi.
  set (G := grid S0 mu sigma g (Z.to_nat n_days) (Z.to_nat n_sim)).
  assert (nth_error G i = Some (nth i G [])) as Hrow
      by (apply nth_error_nth'; unfold G; rewrite grid_length; lia).
  assert (nth i G [] <> []) as Hne.
  { pose proof (grid_rows_nonempty S0 mu sigma g (Z.to_nat n_days) (Z.to_nat n_sim)
                                   ltac:(lia)) as HG.
    rewrite Forall_forall in HG. apply HG. fold G.
    apply nth_In. unfold G. rewrite grid_length. lia. }
  exists (nth i G []), (reduce_row (25 / 10) (nth i G [])),
         (reduce_row 50 (nth i G [])), (reduce_row (975 / 10) (nth i G [])).
  split; [exact Hrow|].
  assert (percentile (nth i G []) (25 / 10)
          = Returned (reduce_row (25 / 10) (nth i G []))) as Hl
      by (apply percentile_interpolate; [assumption | lra]).
  assert (percentile (nth i G []) (975 / 10)
          = Returned (reduce_row (975 / 10) (nth i G []))) as Hu
      by (apply percentile_interpolate; [assumption | lra]).
  assert (median (nth i G []) = Some (reduce_row 50 (nth i G []))) as Hm
      by (now apply median_interpolate).
  split; [exact Hl|].
  split; [now apply median_percentile|].
  split; [exact Hu|].
  split; [now apply band_at_grid|].
  exact (row_ordered _ _ _ _ Hl Hm Hu).
Qed.

Lemma band_bounds_ordered_witness :
  exists S t g' b,
    simulate_gbm_daily 100 (8 / 100) (2 / 10) 2 3 (fun n => INR n)
    = Returned ((S, t), g') /\
    forecast_band 100 (8 / 100) (2 / 10) 2 3 (fun n => INR n) = Returned (b, g') /\
    length S = Z.to_nat 2 /\
    forall i, (i < Z.to_nat 2)%nat ->
      exists row l m u,
        nth_error S i = Some row /\
        percentile row (25 / 10) = Returned l /\
        percentile row 50 = Returned m /\
        percentile row (975 / 10) = Returned u /\
        band_at b i = Some (l, m, u) /\
        l <= m <= u.
Proof.
  apply (band_bounds_ordered 100 (8 / 100) (2 / 10) 2 3 (fun n => INR n)); try lia; lra.
Defined.

(** C7: for every valid input, every k > 0 and the same draws, the run
    from k * S0 returns the band of the run from S0 with every median,
    lower and upper value multiplied by k. *)
Theorem band_scale_invariant
    (S0 mu sigma k : R) (n_days n_sim : Z) (g g' : rng) (b : ForecastBand) :
  0 < S0 -> 0 <= sigma -> (1 <= n_days)%Z -> (1 <= n_sim)%Z -> 0 < k ->
  forecast_band S0 mu sigma n_days n_sim g = Returned (b, g') ->
  forecast_band (k * S0) mu sigma n_days n_sim g = Returned (scale_band k b, g').
Proof.
  intros _ _ Hd Hs Hk Hrun.
  rewrite forecast_closed in Hrun by lia. inversion Hrun; subst b g'.
  rewrite forecast_closed by lia.
  rewrite grid_scale, band_of_grid_scale by assumption. reflexivity.
Qed.

Lemma band_scale_invariant_witness :
  forecast_band (3 * 100) (8 / 100) (2 / 10) 2 3 (fun n => INR n)
  = Returned (scale_band 3 (band_of_grid (grid 100 (8 / 100) (2 / 10) (fun n => INR n) 2 3)),
              advance (fun n => INR n) 6).
Proof.
  apply (band_scale_invariant 100 (8 / 100) (2 / 10) 3 2 3 (fun n => INR n));
    try lia; try lra.
  apply (forecast_closed 100 (8 / 100) (2 / 10) 2 3 (fun n => INR n)); lia.
Defined.

(** C8: two runs on the same inputs from generators that deliver the
    same variates (the same seed) show the same band, or the same error;
    only the first n_days * n_sim variates matter. *)
Theorem band_deterministic (S0 mu sigma : R) (n_days n_sim : Z) (g1 g2 : rng) :
  (forall n, (n < Z.to_nat n_days * Z.to_nat n_sim)%nat -> g1 n = g2 n) ->
  observe (forecast_band S0 mu sigma n_days n_sim g1)
  = observe (forecast_band S0 mu sigma n_days n_sim g2).
Proof.
  intros Hg. rewrite !forecast_unfold.
  destruct (Z_lt_dec n_days 0) as [Hd|Hd]; [|destruct (Z_lt_dec n_sim 0) as [Hs|Hs]].
  - rewrite !simulate_negative by (now left). reflexivity.
  - rewrite !simulate_negative by (now right). reflexivity.
  - rewrite !simulate_closed by lia. simpl.
    now rewrite (grid_ext S0 mu sigma g1 g2).
Qed.

Lemma band_deterministic_witness :
  observe (forecast_band 100 (8 / 100) (2 / 10) 2 1
             (fun n => if (n <? 2)%nat then INR n else 7))
  = observe (forecast_band 100 (8 / 100) (2 / 10) 2 1 (fun n => INR n)).
Proof.
  apply (band_deterministic 100 (8 / 100) (2 / 10) 2 1).
  intros n Hn. simpl in Hn.
  destruct (Nat.ltb_spec n 2); [reflexivity | lia].
Defined.

(** C9: with one day and one path the run completes and returns a band
    of three one-element series, each holding the only entry of the grid. *)
Theorem single_day_single_path (S0 mu sigma : R) (g : rng) :
  0 < S0 -> 0 <= sigma ->
  let x := entry S0 mu sigma g 1 0 0 in
  simulate_gbm_daily S0 mu sigma 1 1 g = Returned (([[x]], [0%Z]), advance g 1) /\
  forecast_band S0 mu sigma 1 1 g = Returned (mkBand [Some x] [x] [x], advance g 1).
Proof.
  intros _ _ x. split.
  - rewrite simulate_closed by lia. reflexivity.
  - rewrite forecast_closed by lia.
    change (grid S0 mu sigma g (Z.to_nat 1) (Z.to_nat 1)) with [[x]].
    unfold band_of_grid. simpl map.
    assert (forall q, 0 <= q <= 100 -> reduce_row q [x] = x) as Hrow.
    { intros q Hq. apply reduce_row_const; [assumption | discriminate |].
      repeat constructor. }
    rewrite !Hrow by lra. reflexivity.
Qed.

Lemma single_day_single_path_witness :
  forecast_band 100 (8 / 100) (2 / 10) 1 1 (fun n => INR n)
  = Returned (mkBand [Some (entry 100 (8 / 100) (2 / 10) (fun n => INR n) 1 0 0)]
                     [entry 100 (8 / 100) (2 / 10) (fun n => INR n) 1 0 0]
                     [entry 100 (8 / 100) (2 / 10) (fun n => INR n) 1 0 0],
              advance (fun n => INR n) 1).
Proof.
  apply (single_day_single_path 100 (8 / 100) (2 / 10) (fun n => INR n)); lra.
Defined.

Section UnderflowFacts.










End UnderflowFacts.




(** * Further properties of the program *)

(** ** More on the estimator *)

Section EstimatorMore.

Lemma consecutive_cons (x y : R) (l : list R) :
  consecutive (x :: y :: l) = (y, x) :: consecutive (y :: l).
Proof. reflexivity. Qed.

Lemma consecutive_scale (k : R) (prices : list R) :
  consecutive (map (Rmult k) prices)
  = map (fun p => (k * fst p, k * snd p)) (consecutive prices).
Proof.
  induction prices as [|x [|y l] IH]; try reflexivity.
  change (map (Rmult k) (x :: y :: l)) with (k * x :: k * y :: map (Rmult k) l).
  rewrite !consecutive_cons. cbn [map fst snd]. f_equal. exact IH.
Qed.

Lemma log_ratio_scale (k a b : R) :
  k <> 0 ->
  match divide (k * a) (k * b) with Some r => log r | None => None end
  = match divide a b with Some r => log r | None => None end.
Proof.
  intros Hk. unfold divide.
  destruct (Req_dec_T b 0) as [Hb|Hb].
  - destruct (Req_dec_T (k * b) 0) as [_|N]; [reflexivity|].
    exfalso. apply N. rewrite Hb. lra.
  - destruct (Req_dec_T (k * b) 0) as [E|_].
    + exfalso. apply Rmult_integral in E. tauto.
    + replace (k * a / (k * b)) with (a / b) by (field; tauto). reflexivity.
Qed.

Lemma log_divide_scale (k : R) (prices : list R) :
  k <> 0 ->
  log_divide (tl (map (Rmult k) prices)) (removelast (map (Rmult k) prices))
  = log_divide (tl prices) (removelast prices).
Proof.
  intros Hk. unfold log_divide.
  fold (consecutive (map (Rmult k) prices)). fold (consecutive prices).
  rewrite consecutive_scale, map_map. f_equal.
  apply map_ext. intros [a b]. simpl. now apply log_ratio_scale.
Qed.






Lemma total_log_returns (x : R) (l : list R) :
  Forall (fun p => 0 < p) (x :: l) ->
  Spec.total (map (fun p => ln (fst p / snd p)) (consecutive (x :: l)))
  = ln (last (x :: l) 0) - ln x.
Proof.
  revert x. induction l as [|y l IH]; intros x Hpos.
  - unfold Spec.total. simpl. lra.
  - inversion Hpos as [|? ? Hx Hrest]; subst.
    inversion Hrest as [|? ? Hy _]; subst.
    rewrite consecutive_cons. cbn [map fst snd].
    change (Spec.total (ln (y / x) :: ?r)) with (ln (y / x) + Spec.total r).
    rewrite IH by assumption.
    change (last (x :: y :: l) 0) with (last (y :: l) 0).
    unfold Rdiv. rewrite ln_mult, ln_Rinv by (try assumption; now apply Rinv_0_lt_compat).
    lra.
Qed.

(** The drift the simulator applies, on positive prices. *)
Lemma drift_telescopes (prices : list R) :
  (2 <= length prices)%nat -> Forall (fun p => 0 < p) prices ->
  Spec.mu prices - 5 / 10 * Spec.sigma prices ^ 2
  = 252 * (ln (last prices 0) - ln (hd 0 prices)) / INR (length prices - 1).
Proof.
  intros Hlen Hpos.
  unfold Spec.mu, Spec.mean, Spec.tradingDaysPerYear.
  rewrite log_returns_consecutive.
  destruct prices as [|x l]; [simpl in Hlen; lia|].
  rewrite total_log_returns by assumption.
  rewrite length_map, consecutive_length. simpl hd.
  assert (INR (length (x :: l) - 1) <> 0) by (apply not_0_INR; simpl in *; lia).
  field. assumption.
Qed.

End EstimatorMore.

(** X1: multiplying every price by the same non-zero factor (another
    currency unit) changes neither the drift nor the volatility. *)
Theorem estimator_scale_invariant (k : R) (prices : list R) :
  k <> 0 ->
  estimate_gbm_parameters (map (Rmult k) prices) = estimate_gbm_parameters prices.
Proof.
  intros Hk. unfold estimate_gbm_parameters.
  now rewrite log_divide_scale.
Qed.

Lemma estimator_scale_invariant_witness :
  estimate_gbm_parameters (map (Rmult 2) [100; 110; 99])
  = estimate_gbm_parameters [100; 110; 99].
Proof. apply estimator_scale_invariant. lra. Defined.

(** X3: on positive prices the drift the simulator applies,
    [mu - 0.5 * sigma^2], is 252 times the mean log return, which
    telescopes: it depends on the first and the last price only. *)
Theorem estimator_drift_telescopes (prices : list R) :
  (2 <= length prices)%nat -> Forall (fun p => 0 < p) prices ->
  exists mu sigma,
    estimate_gbm_parameters prices = Returned (Some mu, Some sigma) /\
    mu - 5 / 10 * sigma ^ 2
    = 252 * (ln (last prices 0) - ln (hd 0 prices)) / INR (length prices - 1).
Proof.
  intros Hlen Hpos. exists (Spec.mu prices), (Spec.sigma prices).
  split.
  - apply estimator_defined; [assumption|]. apply ratios_positive_of_sign. now left.
  - now apply drift_telescopes.
Qed.

Lemma estimator_drift_telescopes_witness :
  exists mu sigma,
    estimate_gbm_parameters [100; 110; 99] = Returned (Some mu, Some sigma) /\
    mu - 5 / 10 * sigma ^ 2
    = 252 * (ln (last [100; 110; 99] 0) - ln (hd 0 [100; 110; 99]))
      / INR (length [100; 110; 99] - 1).
Proof.
  apply estimator_drift_telescopes; [simpl; lia | repeat constructor; lra].
Defined.

(** ** More on the simulator *)

Section SimulatorMore.



Lemma grid_row_lengths (S0 mu sigma : R) (g : rng) (r c : nat) :
  Forall (fun row => length row = c) (grid S0 mu sigma g r c).
Proof.
  apply Forall_forall. intros row Hrow. apply grid_rows in Hrow.
  destruct Hrow as [i [_ ->]]. now rewrite length_map, length_seq.
Qed.

(** One day on: the entry below is the entry above times the growth of
    the day. *)
Lemma entry_step (S0 mu sigma : R) (g : rng) (c i j : nat) :
  entry S0 mu sigma g c (S i) j
  = entry S0 mu sigma g c i j
    * exp ((mu - 5 / 10 * sigma ^ 2) / 252 + sigma * increment g c (S i) j).
Proof.
  unfold entry. rewrite Rmult_assoc, <- exp_plus. f_equal. f_equal.
  rewrite <- !INR_IZR_INZ, S_INR. cbn [brownian]. lra.
Qed.



End SimulatorMore.



(** X5: for dimensions that are not negative the simulator returns
    [n_days] rows of [n_sim] prices each and the days 0 .. n_days-1, and
    leaves the generator [n_days * n_sim] variates further. *)
Theorem simulate_shape (S0 mu sigma : R) (n_days n_sim : Z) (g : rng) :
  (0 <= n_days)%Z -> (0 <= n_sim)%Z ->
  exists S t g',
    simulate_gbm_daily S0 mu sigma n_days n_sim g = Returned ((S, t), g') /\
    length S = Z.to_nat n_days /\
    Forall (fun row => length row = Z.to_nat n_sim) S /\
    t = map Z.of_nat (seq 0 (Z.to_nat n_days)) /\
    forall k, g' k = g (Z.to_nat n_days * Z.to_nat n_sim + k)%nat.
Proof.
  intros Hd Hs. do 3 eexists. split; [apply simulate_closed; lia|].
  split; [apply grid_length|]. split; [apply grid_row_lengths|].
  split; reflexivity.
Qed.

Lemma simulate_shape_witness :
  exists S t g',
    simulate_gbm_daily 100 (8 / 100) (2 / 10) 2 3 (fun n => INR n) = Returned ((S, t), g') /\
    length S = Z.to_nat 2 /\
    Forall (fun row => length row = Z.to_nat 3) S /\
    t = map Z.of_nat (seq 0 (Z.to_nat 2)) /\
    forall k, g' k = (fun n => INR n) (Z.to_nat 2 * Z.to_nat 3 + k)%nat.
Proof.
  apply (simulate_shape 100 (8 / 100) (2 / 10) 2 3 (fun n => INR n)); lia.
Defined.

(** X6: along every path the price of a row is the price of the row
    above times [exp((mu - 0.5 sigma^2)/252 + sigma * dW)], [dW] being the
    increment drawn for that row and path: a geometric random walk. *)
Theorem simulate_geometric_step
    (S0 mu sigma : R) (n_days n_sim : Z) (g : rng) (i j : nat) :
  (Z.of_nat i + 1 < n_days)%Z -> (Z.of_nat j < n_sim)%Z ->
  exists S t g',
    simulate_gbm_daily S0 mu sigma n_days n_sim g = Returned ((S, t), g') /\
    nth j (nth (i + 1) S []) 0
    = nth j (nth i S []) 0
      * exp ((mu - 5 / 10 * sigma ^ 2) / 252
             + sigma * (0 + sqrt (1 / 252) * g ((i + 1) * Z.to_nat n_sim + j)%nat)).
Proof.
  intros Hi Hj. do 3 eexists. split; [apply simulate_closed; lia|].
  rewrite !grid_entry by lia. rewrite Nat.add_1_r. apply entry_step.
Qed.

Lemma simulate_geometric_step_witness :
  exists S t g',
    simulate_gbm_daily 100 (8 / 100) (2 / 10) 3 2 (fun n => INR n) = Returned ((S, t), g') /\
    nth 1 (nth (1 + 1) S []) 0
    = nth 1 (nth 1 S []) 0
      * exp ((8 / 100 - 5 / 10 * (2 / 10) ^ 2) / 252
             + 2 / 10 * (0 + sqrt (1 / 252) * (fun n => INR n) ((1 + 1) * Z.to_nat 2 + 1)%nat)).
Proof.
  apply (simulate_geometric_step 100 (8 / 100) (2 / 10) 3 2 (fun n => INR n) 1 1); lia.
Defined.

(** ** More on the reduction *)

Section ReductionMore.

Lemma sorted_perm_eq (l1 l2 : list R) :
  StronglySorted Rle l1 -> StronglySorted Rle l2 -> Permutation l1 l2 -> l1 = l2.
Proof.
  intros H1. revert l2. induction H1 as [|x l1 Hs1 IH Hall1]; intros l2 H2 Hp.
  - apply Permutation_nil in Hp. now subst.
  - destruct H2 as [|y l2 Hs2 Hall2].
    + apply Permutation_sym, Permutation_nil in Hp. discriminate.
    + assert (x = y) as E.
      { rewrite Forall_forall in Hall1, Hall2.
        assert (In y (x :: l1)) as Hy
            by (apply (Permutation_in y (Permutation_sym Hp)); now left).
        assert (In x (y :: l2)) as Hx by (apply (Permutation_in x Hp); now left).
        destruct Hy as [Hy|Hy]; [assumption|].
        destruct Hx as [Hx|Hx]; [now symmetry|].
        apply Hall1 in Hy. apply Hall2 in Hx. lra. }
      subst y. f_equal. apply IH; [assumption|].
      now apply Permutation_cons_inv in Hp.
Qed.

Lemma sort_perm_eq (a b : list R) : Permutation a b -> sort a = sort b.
Proof.
  intros Hp. apply sorted_perm_eq; try apply sort_sorted.
  eapply perm_trans; [apply sort_perm|].
  eapply perm_trans; [exact Hp | apply Permutation_sym, sort_perm].
Qed.

Lemma median_perm (a b : list R) : Permutation a b -> median a = median b.
Proof.
  intros Hp. unfold median.
  now rewrite (sort_perm_eq a b Hp), (Permutation_length Hp).
Qed.

Lemma percentile_perm (a b : list R) (q : R) :
  Permutation a b -> percentile a q = percentile b q.
Proof.
  intros Hp. unfold percentile.
  now rewrite (sort_perm_eq a b Hp), (Permutation_length Hp).
Qed.

Lemma mapM_percentile_perm (q : R) (G1 G2 : list (list R)) :
  Forall2 (@Permutation R) G1 G2 ->
  mapM (fun row => percentile row q) G1 = mapM (fun row => percentile row q) G2.
Proof.
  induction 1 as [|a b G1 G2 Hp _ IH]; simpl; [reflexivity|].
  now rewrite (percentile_perm a b q Hp), IH.
Qed.

Lemma percentile_empty (q : R) (v : R) : percentile [] q <> Returned v.
Proof.
  unfold percentile.
  destruct (Rlt_dec q 0); [discriminate|]. destruct (Rlt_dec 100 q); [discriminate|].
  simpl sort. destruct (get_indexes _ _) as [prev next].
  destruct (index [] prev) eqn:E; [|discriminate].
  exfalso. revert E. unfold index. cbv zeta. simpl length.
  destruct (_ || _)%bool eqn:B; [discriminate|].
  destruct (Z.to_nat _); discriminate.
Qed.

Lemma mapM_percentile_returned (q : R) (G : list (list R)) (vs : list R) :
  mapM (fun row => percentile row q) G = Returned vs ->
  Forall (fun row => row <> []) G.
Proof.
  revert vs. induction G as [|row G IH]; intros vs; simpl; [constructor|].
  destruct (percentile row q) eqn:Hrow; simpl; [|discriminate].
  destruct (mapM _ G) eqn:Hrest; simpl; [|discriminate].
  intros _. constructor; [|now apply (IH a0)].
  intros ->. now apply percentile_empty in Hrow.
Qed.

(** When the reduction returns, no row was empty and the band is the one
    of the interpolations. *)
Lemma reduce_paths_returned (G : list (list R)) (b : ForecastBand) :
  reduce_paths G = Returned b ->
  Forall (fun row => row <> []) G /\ b = band_of_grid G.
Proof.
  intros Hb.
  assert (Forall (fun row => row <> []) G) as Hne.
  { unfold reduce_paths in Hb.
    destruct (mapM (fun row => percentile row (25 / 10)) G) eqn:Hl; [|discriminate].
    now apply mapM_percentile_returned in Hl. }
  split; [exact Hne|].
  rewrite reduce_paths_closed in Hb by assumption. now inversion Hb.
Qed.

Lemma nth_error_Forall {A : Type} (P : A -> Prop) (l : list A) (i : nat) (x : A) :
  Forall P l -> nth_error l i = Some x -> P x.
Proof.
  intros Hall Hx. rewrite Forall_forall in Hall. apply Hall.
  eapply nth_error_In. exact Hx.
Qed.

End ReductionMore.

(** X7: the band does not depend on the order of the sample paths:
    permuting the prices within each day's row changes neither the band nor
    the error. *)
Theorem reduce_paths_order_irrelevant (G1 G2 : list (list R)) :
  Forall2 (@Permutation R) G1 G2 -> reduce_paths G1 = reduce_paths G2.
Proof.
  intros Hp. unfold reduce_paths.
  rewrite (mapM_percentile_perm (25 / 10) G1 G2 Hp).
  rewrite (mapM_percentile_perm (975 / 10) G1 G2 Hp).
  assert (map median G1 = map median G2) as Hm.
  { clear -Hp. induction Hp as [|a b G1 G2 Hab _ IH]; simpl; [reflexivity|].
    now rewrite (median_perm a b Hab), IH. }
  now rewrite Hm.
Qed.

Lemma reduce_paths_order_irrelevant_witness :
  reduce_paths [[3; 1; 2]; [5; 4; 6]] = reduce_paths [[1; 2; 3]; [6; 5; 4]].
Proof.
  apply reduce_paths_order_irrelevant.
  constructor; [|constructor; [|constructor]].
  - apply (perm_trans (perm_swap 1 3 [2])). apply perm_skip, perm_swap.
  - apply (perm_trans (perm_skip 5 (perm_swap 6 4 []))). apply perm_swap.
Defined.

(** X8: whenever the reduction returns a band, every day has its three
    values, they are ordered, and they lie between any two bounds that
    enclose all the simulated prices of that day. *)
Theorem band_within_day_extremes
    (G : list (list R)) (b : ForecastBand) (i : nat) (row : list R) (lo hi : R) :
  reduce_paths G = Returned b ->
  nth_error G i = Some row ->
  Forall (fun x => lo <= x <= hi) row ->
  exists l m u,
    band_at b i = Some (l, m, u) /\ lo <= l /\ l <= m /\ m <= u /\ u <= hi.
Proof.
  intros Hb Hrow Hbound.
  apply reduce_paths_returned in Hb. destruct Hb as [Hne ->].
  pose proof (nth_error_Forall _ _ _ _ Hne Hrow) as Hrow_ne.
  exists (reduce_row (25 / 10) row), (reduce_row 50 row), (reduce_row (975 / 10) row).
  split; [now apply band_at_grid|].
  assert (forall q, 0 <= q <= 100 -> lo <= reduce_row q row <= hi) as Hin.
  { intros q Hq. apply (reduce_row_between (fun x => lo <= x <= hi)); try assumption.
    intros a c t Ha Hc Ht. split; nra. }
  assert (reduce_row (25 / 10) row <= reduce_row 50 row <= reduce_row (975 / 10) row) as Hord.
  { apply (row_ordered row).
    - apply percentile_interpolate; [assumption | lra].
    - now apply median_interpolate.
    - apply percentile_interpolate; [assumption | lra]. }
  pose proof (Hin (25 / 10) ltac:(lra)). pose proof (Hin (975 / 10) ltac:(lra)).
  repeat split; lra.
Qed.

Lemma band_within_day_extremes_witness :
  exists l m u,
    band_at (band_of_grid [[3; 1; 2]]) 0 = Some (l, m, u) /\
    1 <= l /\ l <= m /\ m <= u /\ u <= 3.
Proof.
  apply (band_within_day_extremes [[3; 1; 2]] (band_of_grid [[3; 1; 2]]) 0 [3; 1; 2] 1 3).
  - apply reduce_paths_closed. repeat constructor; discriminate.
  - reflexivity.
  - repeat constructor; lra.
Defined.

(** ** The orchestration *)

Section PredictFacts.

Lemma nth_pred_last {A : Type} (l : list A) (d : A) :
  nth (length l - 1) l d = last l d.
Proof.
  induction l as [|x [|y l] IH]; try reflexivity.
  change (last (x :: y :: l) d) with (last (y :: l) d). rewrite <- IH.
  simpl. rewrite Nat.sub_0_r. reflexivity.
Qed.

Lemma recent_window_length (data : list R) :
  length (recent_window data) = Nat.min (length data) 252.
Proof.
  unfold recent_window. destruct (Nat.ltb_spec 252 (length data)).
  - rewrite length_skipn. lia.
  - lia.
Qed.

Lemma recent_window_last (data : list R) :
  last (recent_window data) 0 = last data 0.
Proof.
  unfold recent_window. destruct (Nat.ltb_spec 252 (length data)); [|reflexivity].
  rewrite <- !nth_pred_last, length_skipn, nth_skipn. f_equal. lia.
Qed.

Lemma recent_window_suffix (data : list R) :
  exists older, data = older ++ recent_window data.
Proof.
  unfold recent_window. destruct (Nat.ltb_spec 252 (length data)).
  - exists (firstn (length data - 252) data). symmetry. apply firstn_skipn.
  - now exists [].
Qed.

Lemma recent_window_Forall (P : R -> Prop) (data : list R) :
  Forall P data -> Forall P (recent_window data).
Proof.
  intros H. destruct (recent_window_suffix data) as [older E].
  rewrite E in H. now apply Forall_app in H.
Qed.

Lemma recent_window_app (older recent : list R) :
  length recent = 252%nat -> recent_window (older ++ recent) = recent.
Proof.
  intros Hlen. unfold recent_window. rewrite length_app, Hlen.
  destruct (Nat.ltb_spec 252 (length older + 252)).
  - replace (length older + 252 - 252)%nat with (length older) by lia.
    rewrite skipn_app, skipn_all, Nat.sub_diag. reflexivity.
  - assert (length older = 0)%nat as E by lia.
    apply length_zero_iff_nil in E. now subst.
Qed.

Lemma index_last_map {A B : Type} (f : A -> B) (G : list A) (d : A) :
  G <> [] -> index (map f G) (-1) = Returned (f (nth (length G - 1) G d)).
Proof.
  intros HG. rewrite (index_last (map f G) (f d)).
  - now rewrite length_map, map_nth.
  - destruct G; [congruence | discriminate].
Qed.

Lemma percent_change_defined (v S0 : R) :
  S0 <> 0 -> percent_change (Some v) S0 = Some ((v / S0 - 1) * 100).
Proof.
  intros HS. unfold percent_change, divide.
  destruct (Req_dec_T S0 0); [contradiction | reflexivity].
Qed.

(** A run on a long enough history with finite parameters, a positive
    number of days and at least one path: the report, in closed form. *)
Lemma predict_finite_run (data : list R) (n_days n_sim : Z) (g : rng) (mu sigma : R) :
  (60 <= length data)%nat ->
  estimate_gbm_parameters (recent_window data) = Returned (Some mu, Some sigma) ->
  (1 <= n_days)%Z -> (1 <= n_sim)%Z ->
  let S0 := last data 0 in
  let G := grid S0 mu sigma g (Z.to_nat n_days) (Z.to_nat n_sim) in
  let row := nth (Z.to_nat n_days - 1) G [] in
  predict_stock_daily data n_days n_sim g
  = Returned (Forecast (mkReport S0 (Nat.min (length data) 252)
                                 mu (mu * 100) sigma (sigma * 100)
                                 n_days (IZR n_days / 21)
                                 (Some (reduce_row 50 row))
                                 (percent_change (Some (reduce_row 50 row)) S0)
                                 (reduce_row (25 / 10) row)
                                 (reduce_row (975 / 10) row)
                                 (percent_change (Some (reduce_row (25 / 10) row)) S0)
                                 (percent_change (Some (reduce_row (975 / 10) row)) S0)
                                 ((mu - 5 / 10 * sigma ^ 2) * 100)),
              advance g (Z.to_nat n_days * Z.to_nat n_sim)).
Proof.
  intros Hlen Hest Hd Hs S0 G row.
  assert (recent_window data <> []) as Hne.
  { intros E. apply (f_equal (@length R)) in E.
    rewrite recent_window_length in E. simpl in E. lia. }
  assert (G <> []) as HG.
  { intros E. apply (f_equal (@length (list R))) in E. unfold G in E.
    rewrite grid_length in E. simpl in E. lia. }
  unfold predict_stock_daily.
  destruct (Nat.ltb_spec (length data) 60); [lia|]. cbv zeta.
  unfold rbind, lift, ret.
  rewrite (index_last (recent_window data) 0 Hne), nth_pred_last, recent_window_last.
  rewrite Hest, forecast_closed by lia.
  fold S0. fold G. unfold band_of_grid. cbn [median_series lower upper].
  rewrite !(index_last_map _ G []) by assumption.
  assert (length G = Z.to_nat n_days) as HlenG by apply grid_length.
  rewrite HlenG. fold row. rewrite recent_window_length. reflexivity.
Qed.

Lemma repeat_positive (x : R) (n : nat) : 0 < x -> Forall (fun p => 0 < p) (repeat x n).
Proof.
  intros Hx. apply Forall_forall. intros y Hy. apply repeat_spec in Hy. now subst.
Qed.

End PredictFacts.

(** X10: on at least 60 closes the last of which is positive, when the
    estimator gives finite parameters on the window, with a positive horizon
    and at least one path, the run reaches the report: the current price is
    the last close, the data used are the last 252 closes at most, drift and
    volatility are the estimator's, the interval encloses the median, and
    the three percentage changes, before they are formatted, are ordered. *)
Theorem report_is_consistent
    (data : list R) (n_days n_sim : Z) (g : rng) (mu sigma : R) :
  (60 <= length data)%nat -> 0 < last data 0 ->
  estimate_gbm_parameters (recent_window data) = Returned (Some mu, Some sigma) ->
  (1 <= n_days)%Z -> (1 <= n_sim)%Z ->
  exists r m pl pm pu,
    predict_stock_daily data n_days n_sim g
    = Returned (Forecast r, advance g (Z.to_nat n_days * Z.to_nat n_sim)) /\
    current_price r = last data 0 /\
    data_used r = Nat.min (length data) 252 /\
    drift r = mu /\ volatility r = sigma /\
    median_price r = Some m /\
    interval_low r <= m /\ m <= interval_high r /\
    range_low r = Some pl /\ expected_change r = Some pm /\ range_high r = Some pu /\
    pl <= pm /\ pm <= pu.
Proof.
  intros Hlen HS0 Hest Hd Hs.
  set (S0 := last data 0) in *.
  set (G := grid S0 mu sigma g (Z.to_nat n_days) (Z.to_nat n_sim)).
  set (row := nth (Z.to_nat n_days - 1) G []).
  assert (In row G) as Hrow
      by (apply nth_In; unfold G; rewrite grid_length; lia).
  assert (row <> []) as Hne.
  { pose proof (grid_rows_nonempty S0 mu sigma g (Z.to_nat n_days) (Z.to_nat n_sim)
                                   ltac:(lia)) as H.
    rewrite Forall_forall in H. now apply H. }
  assert (reduce_row (25 / 10) row <= reduce_row 50 row <= reduce_row (975 / 10) row)
    as [Hlm Hmu].
  { apply (row_ordered row).
    - apply percentile_interpolate; [assumption | lra].
    - now apply median_interpolate.
    - apply percentile_interpolate; [assumption | lra]. }
  eexists. exists (reduce_row 50 row).
  exists ((reduce_row (25 / 10) row / S0 - 1) * 100),
         ((reduce_row 50 row / S0 - 1) * 100),
         ((reduce_row (975 / 10) row / S0 - 1) * 100).
  split; [exact (predict_finite_run data n_days n_sim g mu sigma Hlen Hest Hd Hs)|]. cbn.
  rewrite !percent_change_defined by (apply Rgt_not_eq; exact HS0).
  assert (0 < / S0) as Hinv by now apply Rinv_0_lt_compat.
  repeat split; try assumption; unfold Rdiv.
  - assert (reduce_row (25 / 10) row * / S0 <= reduce_row 50 row * / S0)
      by (apply Rmult_le_compat_r; lra).
    lra.
  - assert (reduce_row 50 row * / S0 <= reduce_row (975 / 10) row * / S0)
      by (apply Rmult_le_compat_r; lra).
    lra.
Qed.

Lemma report_is_consistent_witness :
  exists r m pl pm pu,
    predict_stock_daily (repeat 100 60) 5 3 (fun n => INR n)
    = Returned (Forecast r, advance (fun n => INR n) (Z.to_nat 5 * Z.to_nat 3)) /\
    current_price r = last (repeat 100 60) 0 /\
    data_used r = Nat.min (length (repeat 100 60)) 252 /\
    drift r = Spec.mu (recent_window (repeat 100 60)) /\
    volatility r = Spec.sigma (recent_window (repeat 100 60)) /\
    median_price r = Some m /\
    interval_low r <= m /\ m <= interval_high r /\
    range_low r = Some pl /\ expected_change r = Some pm /\ range_high r = Some pu /\
    pl <= pm /\ pm <= pu.
Proof.
  apply (report_is_consistent (repeat 100 60) 5 3 (fun n => INR n)).
  - rewrite repeat_length. lia.
  - simpl. lra.
  - apply estimator_defined; [rewrite recent_window_length, repeat_length; simpl; lia|].
    apply ratios_positive_of_sign. left.
    apply recent_window_Forall, repeat_positive. lra.
  - lia.
  - lia.
Defined.

(** X11: closes older than the last 252 have no influence: a run on a
    longer history is the run on its last 252 closes. *)
Theorem older_history_is_ignored (older recent : list R) (n_days n_sim : Z) (g : rng) :
  length recent = 252%nat ->
  predict_stock_daily (older ++ recent) n_days n_sim g
  = predict_stock_daily recent n_days n_sim g.
Proof.
  intros Hlen. unfold predict_stock_daily.
  destruct (Nat.ltb_spec (length (older ++ recent)) 60) as [H|_];
    [rewrite length_app in H; lia|].
  destruct (Nat.ltb_spec (length recent) 60) as [H|_]; [lia|].
  cbv zeta. rewrite (recent_window_app older recent Hlen).
  rewrite (recent_window_app [] recent Hlen : recent_window recent = recent).
  reflexivity.
Qed.

Lemma older_history_is_ignored_witness :
  predict_stock_daily ([1; 2; 3] ++ repeat 100 252) 5 3 (fun n => INR n)
  = predict_stock_daily (repeat 100 252) 5 3 (fun n => INR n).
Proof.
  apply older_history_is_ignored. apply repeat_length.
Defined.

(** X12: on a sufficient history of positive closes a horizon that is
    not positive makes the run fail: a negative one at the random draw, and
    a horizon of zero after the simulation, when the report reads the last
    value of an empty forecast. *)
Theorem horizon_must_be_positive (data : list R) (n_days n_sim : Z) (g : rng) :
  (60 <= length data)%nat -> Forall (fun p => 0 < p) data -> (1 <= n_sim)%Z ->
  ((n_days < 0)%Z -> predict_stock_daily data n_days n_sim g = Raised ValueError) /\
  (n_days = 0%Z -> predict_stock_daily data n_days n_sim g = Raised IndexError).
Proof.
  intros Hlen Hpos Hs.
  assert (estimate_gbm_parameters (recent_window data)
          = Returned (Some (Spec.mu (recent_window data)),
                      Some (Spec.sigma (recent_window data)))) as Hest.
  { apply estimator_defined; [rewrite recent_window_length; lia|].
    apply ratios_positive_of_sign. left. now apply recent_window_Forall. }
  assert (recent_window data <> []) as Hne.
  { intros E. apply (f_equal (@length R)) in E.
    rewrite recent_window_length in E. simpl in E. lia. }
  split; intros Hd; unfold predict_stock_daily;
    (destruct (Nat.ltb_spec (length data) 60); [lia|]); cbv zeta;
    unfold rbind at 1 2 3, lift at 1 2, ret;
    rewrite (index_last (recent_window data) 0 Hne), Hest.
  - unfold forecast_band, rbind. rewrite simulate_negative by now left. reflexivity.
  - subst n_days. rewrite forecast_closed by lia. reflexivity.
Qed.

Lemma horizon_must_be_positive_witness :
  predict_stock_daily (repeat 100 60) (-1) 3 (fun n => INR n) = Raised ValueError /\
  predict_stock_daily (repeat 100 60) 0 3 (fun n => INR n) = Raised IndexError.
Proof.
  assert (60 <= length (repeat 100 60))%nat as Hlen by (rewrite repeat_length; lia).
  assert (Forall (fun p => 0 < p) (repeat 100 60)) as Hpos by (apply repeat_positive; lra).
  split.
  - apply (proj1 (horizon_must_be_positive (repeat 100 60) (-1) 3 (fun n => INR n)
                                           Hlen Hpos ltac:(lia))). lia.
  - apply (proj2 (horizon_must_be_positive (repeat 100 60) 0 3 (fun n => INR n)
                                           Hlen Hpos ltac:(lia))). reflexivity.
Defined.

(** X13: the expected annual return the report prints depends on the
    first and the last close of the window only. *)
Theorem report_return_from_endpoints (data : list R) (n_days n_sim : Z) (g : rng) :
  (60 <= length data)%nat -> Forall (fun p => 0 < p) data ->
  (1 <= n_days)%Z -> (1 <= n_sim)%Z ->
  exists r g',
    predict_stock_daily data n_days n_sim g = Returned (Forecast r, g') /\
    expected_annual_return r
    = 25200 * (ln (last data 0) - ln (hd 0 (recent_window data)))
      / INR (Nat.min (length data) 252 - 1).
Proof.
  intros Hlen Hpos Hd Hs.
  assert (Forall (fun p => 0 < p) (recent_window data)) as Hwpos
      by now apply recent_window_Forall.
  assert (2 <= length (recent_window data))%nat as Hwlen
      by (rewrite recent_window_length; lia).
  assert (estimate_gbm_parameters (recent_window data)
          = Returned (Some (Spec.mu (recent_window data)),
                      Some (Spec.sigma (recent_window data)))) as Hest.
  { apply estimator_defined; [assumption|]. apply ratios_positive_of_sign. now left. }
  do 2 eexists. split.
  - exact (predict_finite_run data n_days n_sim g _ _ Hlen Hest Hd Hs).
  - cbn. rewrite drift_telescopes by assumption.
    rewrite recent_window_last, recent_window_length. unfold Rdiv. ring.
Qed.

Lemma report_return_from_endpoints_witness :
  exists r g',
    predict_stock_daily (repeat 100 60) 5 3 (fun n => INR n) = Returned (Forecast r, g') /\
    expected_annual_return r
    = 25200 * (ln (last (repeat 100 60) 0) - ln (hd 0 (recent_window (repeat 100 60))))
      / INR (Nat.min (length (repeat 100 60)) 252 - 1).
Proof.
  apply (report_return_from_endpoints (repeat 100 60) 5 3 (fun n => INR n)).
  - rewrite repeat_length. lia.
  - apply repeat_positive. lra.
  - lia.
  - lia.
Defined.
